(** * Nexmosphere serial bridge: command dispatcher, broadcast hub, status parser

    A shallow embedding of the core of the server (the immediately invoked
    async function of [index.js]), and the properties the specification
    states about it.  The dispatcher, the status check and the two handlers
    are the same in both variants of the server; the broadcast hub is that
    of the variant that keeps the [connectedClients] set.

    Conventions of the embedding.
    - A JavaScript string is the list of its UTF-16 code units ([jsstring]);
      [lit] turns a literal of the source into that list.
    - A JavaScript exception is the [Throws] case of [Completion].
    - The event loop is a step function on an explicit [Server] state: one
      step is one callback run to completion (an HTTP request arriving, a
      timer firing, a write completing, a WebSocket event, a device line).
      Every step carries the value [Date.now()] has while it runs.
    - [console.log] output is not part of the state. *)

From Stdlib Require Import String Ascii NArith ZArith List Bool Lia Sorted.
From stdpp Require Import base option list gmap.
Import ListNotations.

Local Open Scope Z_scope.

(* ===================================================================== *)
(** ** Completions: normal return or thrown exception *)
(* ===================================================================== *)

Inductive Completion (A : Type) : Type :=
| Normal (a : A)
| Throws (what : string).
Arguments Normal {A} a.
Arguments Throws {A} what.

Definition cbind {A B} (c : Completion A) (k : A -> Completion B) : Completion B :=
  match c with
  | Normal a => k a
  | Throws w => Throws w
  end.

Notation "x <~ c ;; k" := (cbind c (fun x => k))
  (at level 100, c at next level, right associativity).

(* ===================================================================== *)
(** ** JavaScript strings *)
(* ===================================================================== *)

(** A string value: its code units, in order. *)
Definition jsstring : Type := list N.

Definition lit (s : string) : jsstring :=
  List.map N_of_ascii (list_ascii_of_string s).

Fixpoint str_eqb (a b : jsstring) : bool :=
  match a, b with
  | [], [] => true
  | x :: a', y :: b' => N.eqb x y && str_eqb a' b'
  | _, _ => false
  end.

(** [ToBoolean] on a string: only the empty string is falsy. *)
Definition truthy (s : jsstring) : bool :=
  match s with
  | [] => false
  | _ :: _ => true
  end.

(** [s.startsWith(pat)]. *)
Fixpoint starts_with (pat s : jsstring) : bool :=
  match pat, s with
  | [], _ => true
  | _ :: _, [] => false
  | p :: pat', c :: s' => N.eqb p c && starts_with pat' s'
  end.

(** [s.includes(pat)]. *)
Fixpoint includes (pat s : jsstring) : bool :=
  starts_with pat s ||
  match s with
  | [] => false
  | _ :: s' => includes pat s'
  end.

(** [s.endsWith(suf)]. *)
Definition endsWith (suf s : jsstring) : bool :=
  starts_with (rev suf) (rev s).

(** [s.split(sep)] for a string separator.  [skip] counts the code units of
    a separator just matched that are still to be passed over; [cur] is the
    piece being collected, in reverse. *)
Fixpoint split_go (sep : jsstring) (skip : nat) (cur s : jsstring) : list jsstring :=
  match s with
  | [] => [rev cur]
  | c :: s' =>
      match skip with
      | S k => split_go sep k cur s'
      | O =>
          if starts_with sep s
          then rev cur :: split_go sep (length sep - 1) [] s'
          else split_go sep 0 (c :: cur) s'
      end
  end.

Definition split (sep s : jsstring) : list jsstring :=
  match sep with
  | [] => List.map (fun c => [c]) s
  | _ :: _ => split_go sep 0 [] s
  end.

(** [s.replace(pat, rep)] with a string pattern: only the first occurrence
    of [pat] is replaced.  ([rep] is taken literally; the source only passes
    the empty replacement.) *)
Fixpoint replace (pat rep s : jsstring) : jsstring :=
  if starts_with pat s then rep ++ drop (length pat) s
  else match s with
       | [] => []
       | c :: s' => c :: replace pat rep s'
       end.

(** White space and line terminators of ECMAScript, as code units. *)
Definition is_white_space (c : N) : bool :=
  let c := Z.of_N c in
  ((9 <=? c) && (c <=? 13)) || (c =? 32) || (c =? 160) || (c =? 5760)
  || ((8192 <=? c) && (c <=? 8202)) || (c =? 8232) || (c =? 8233)
  || (c =? 8239) || (c =? 8287) || (c =? 12288) || (c =? 65279).

Fixpoint trimStart (s : jsstring) : jsstring :=
  match s with
  | [] => []
  | c :: s' => if is_white_space c then trimStart s' else s
  end.

Definition trimEnd (s : jsstring) : jsstring := rev (trimStart (rev s)).

(** [s.trim()]. *)
Definition trim (s : jsstring) : jsstring := trimStart (trimEnd s).

(** [a[i]]: [None] is [undefined]. *)
Definition index {A} (a : list A) (i : nat) : option A := nth_error a i.

(** A method call on a value that may be [undefined]. *)
Definition on_string {B} (receiver : option jsstring) (method : jsstring -> B)
  : Completion B :=
  match receiver with
  | Some s => Normal (method s)
  | None => Throws "TypeError: Cannot read properties of undefined"
  end.

(* ===================================================================== *)
(** ** Status parser: [getStickers] *)
(* ===================================================================== *)

Definition getStickers (string : jsstring) : Completion (list jsstring) :=
  if negb (truthy string) || negb (includes (lit "[") string) then Normal []
  else
    let string1 := index (split (lit "[") string) 1 in
    parts <~ on_string string1 (split (lit "]")) ;;
    let string2 := index parts 0 in
    tokens <~ on_string string2 (split (lit " ")) ;;
    Normal
      (List.map (fun x => if str_eqb x (lit "001") then lit "mist" else lit "mask")
         (List.filter (fun x => negb (str_eqb x (lit "000")))
            (List.map (fun x => replace (lit "d") [] x)
               (List.filter (fun x => truthy x) tokens)))).

(* ===================================================================== *)
(** ** Values exchanged with the callers *)
(* ===================================================================== *)

(** Body of an HTTP response. *)
Inductive Body : Type :=
| ErrorObject (error : jsstring)                      (* { error } *)
| SentObject (success : bool) (command : jsstring)    (* { success, command } *)
| QueueStatusObject (queueLength : Z) (isProcessing : bool) (rateLimitMs : Z)
| TagArray (tags : list jsstring)
| Text (text : jsstring).

Record Response : Type := mkResponse { status : Z; body : Body }.

(** What a promise of [queueCommand] is settled with. *)
Inductive Settlement : Type :=
| Resolved (success : bool) (command : jsstring)
| Rejected (reason : jsstring).

(** [err] of a write callback: [None] is a null [err], [Some m] an [Error]
    whose [message] is [m]. *)
Definition WriteError : Type := option jsstring.

Definition CRLF : jsstring := [13%N; 10%N].

(* ===================================================================== *)
(** ** State *)
(* ===================================================================== *)

(** An entry of [commandQueue]: [{ command, resolve, reject }], the two
    closures being those of the promise [promise]. *)
Record QueueEntry : Type := mkEntry { command : jsstring; promise : nat }.

(** The variables of the dispatcher. *)
Record Dispatcher : Type := mkDispatcher {
  commandQueue : list QueueEntry;
  isProcessingQueue : bool;
  lastCommandTime : Z
}.

(** The callback handed to [port.write]: the one of [processQueue] (with the
    entry it closes over) or the one of [sendCommand] (with its call). *)
Inductive WriteCallback : Type :=
| FromQueue (entry : QueueEntry)
| FromSendCommand (call : nat).

(** One [port.write] call: when it was issued, what was written, and the
    callback it was given. *)
Record WireWrite : Type := mkWrite {
  issued : Z;
  payload : jsstring;
  origin : WriteCallback
}.

(** A [ws] connection object. *)
Record WebSocket : Type := mkSocket { readyState : N; frames : list jsstring }.

(** One call of [sendCommand]: the response object of the request that
    awaits it, whether its [once('data')] listener is still registered, and
    whether its promise is settled. *)
Record StatusCall : Type := mkCall {
  call_res : nat;
  call_listening : bool;
  call_settled : bool
}.

Record Server : Type := mkServer {
  dispatcher : Dispatcher;
  connectedClients : list nat;          (* the Set, in insertion order *)
  sockets : gmap nat WebSocket;         (* the connection objects *)
  timers : list Z;                      (* pending [setTimeout]s: due times *)
  outstanding : list WriteCallback;     (* writes whose callback has not run *)
  wire : list WireWrite;                (* every [port.write] call, in order *)
  nextId : nat;                         (* next fresh promise or call *)
  awaiting : gmap nat nat;              (* promise -> response object of its handler *)
  statusCalls : gmap nat StatusCall;
  settled : list (nat * Settlement);    (* settlements of [queueCommand] promises *)
  responses : list (nat * Response);    (* HTTP responses sent, per response object *)
  clock : Z                             (* last value of [Date.now()] *)
}.

Definition RATE_LIMIT_MS : Z := 300.

Definition initial : Server :=
  {| dispatcher := {| commandQueue := []; isProcessingQueue := false; lastCommandTime := 0 |};
     connectedClients := []; sockets := ∅; timers := []; outstanding := [];
     wire := []; nextId := 0%nat; awaiting := ∅; statusCalls := ∅;
     settled := []; responses := []; clock := 0 |}.

Definition set_dispatcher (d : Dispatcher) (st : Server) : Server :=
  {| dispatcher := d; connectedClients := connectedClients st;
     sockets := sockets st; timers := timers st; outstanding := outstanding st;
     wire := wire st; nextId := nextId st; awaiting := awaiting st;
     statusCalls := statusCalls st; settled := settled st;
     responses := responses st; clock := clock st |}.

Definition set_hub (clients : list nat) (socks : gmap nat WebSocket) (st : Server) : Server :=
  {| dispatcher := dispatcher st; connectedClients := clients;
     sockets := socks; timers := timers st; outstanding := outstanding st;
     wire := wire st; nextId := nextId st; awaiting := awaiting st;
     statusCalls := statusCalls st; settled := settled st;
     responses := responses st; clock := clock st |}.

Definition set_timers (ts : list Z) (st : Server) : Server :=
  {| dispatcher := dispatcher st; connectedClients := connectedClients st;
     sockets := sockets st; timers := ts; outstanding := outstanding st;
     wire := wire st; nextId := nextId st; awaiting := awaiting st;
     statusCalls := statusCalls st; settled := settled st;
     responses := responses st; clock := clock st |}.

Definition set_outstanding (ws : list WriteCallback) (st : Server) : Server :=
  {| dispatcher := dispatcher st; connectedClients := connectedClients st;
     sockets := sockets st; timers := timers st; outstanding := ws;
     wire := wire st; nextId := nextId st; awaiting := awaiting st;
     statusCalls := statusCalls st; settled := settled st;
     responses := responses st; clock := clock st |}.

Definition set_calls (next : nat) (aw : gmap nat nat) (calls : gmap nat StatusCall)
    (st : Server) : Server :=
  {| dispatcher := dispatcher st; connectedClients := connectedClients st;
     sockets := sockets st; timers := timers st; outstanding := outstanding st;
     wire := wire st; nextId := next; awaiting := aw;
     statusCalls := calls; settled := settled st;
     responses := responses st; clock := clock st |}.

Definition set_clock (now : Z) (st : Server) : Server :=
  {| dispatcher := dispatcher st; connectedClients := connectedClients st;
     sockets := sockets st; timers := timers st; outstanding := outstanding st;
     wire := wire st; nextId := nextId st; awaiting := awaiting st;
     statusCalls := statusCalls st; settled := settled st;
     responses := responses st; clock := now |}.

(** [res.status(..).json(..)] / [res.send(..)] on the response object [res]. *)
Definition respond (res : nat) (r : Response) (st : Server) : Server :=
  {| dispatcher := dispatcher st; connectedClients := connectedClients st;
     sockets := sockets st; timers := timers st; outstanding := outstanding st;
     wire := wire st; nextId := nextId st; awaiting := awaiting st;
     statusCalls := statusCalls st; settled := settled st;
     responses := responses st ++ [(res, r)]; clock := clock st |}.

(** [port.write(payload, callback)] at time [now]: the bytes are handed to
    the link at once, the callback runs later. *)
Definition port_write (now : Z) (data : jsstring) (callback : WriteCallback)
    (st : Server) : Server :=
  {| dispatcher := dispatcher st; connectedClients := connectedClients st;
     sockets := sockets st; timers := timers st;
     outstanding := outstanding st ++ [callback];
     wire := wire st ++ [{| issued := now; payload := data; origin := callback |}];
     nextId := nextId st;
     awaiting := awaiting st; statusCalls := statusCalls st;
     settled := settled st; responses := responses st; clock := clock st |}.

(* ===================================================================== *)
(** ** Command dispatcher *)
(* ===================================================================== *)

(** [processQueue()], run while [Date.now()] is [now].  [setTimeout] records
    the time at which its callback is due. *)
Definition processQueue (now : Z) (st : Server) : Server :=
  let d := dispatcher st in
  if isProcessingQueue d || (length (commandQueue d) =? 0)%nat then st
  else
    let timeSinceLastCommand := now - lastCommandTime d in
    let delay := Z.max 0 (RATE_LIMIT_MS - timeSinceLastCommand) in
    set_timers (timers st ++ [now + delay])
      (set_dispatcher
         {| commandQueue := commandQueue d;
            isProcessingQueue := true;
            lastCommandTime := lastCommandTime d |} st).

(** The callback given to [setTimeout]: [shift] the head entry, stamp
    [lastCommandTime], hand the command to the port.  Destructuring the
    [undefined] that [shift] returns on an empty array throws. *)
Definition timer_callback (now : Z) (st : Server) : Completion Server :=
  let d := dispatcher st in
  match commandQueue d with
  | [] => Throws "TypeError: Cannot destructure property of undefined"
  | entry :: rest =>
      Normal
        (port_write now (command entry) (FromQueue entry)
           (set_dispatcher
              {| commandQueue := rest;
                 isProcessingQueue := isProcessingQueue d;
                 lastCommandTime := now |} st))
  end.

(** What the handler of POST /send-command sends once its promise settles:
    [res.json(result)], or [res.status(500).json({ error: error.toString() })]. *)
Definition send_command_response (s : Settlement) : Response :=
  match s with
  | Resolved ok c => {| status := 200; body := SentObject ok c |}
  | Rejected reason => {| status := 500; body := ErrorObject reason |}
  end.

(** [resolve(..)] or [reject(..)] of promise [p]; the handler awaiting it,
    if any, continues and responds. *)
Definition settle (p : nat) (s : Settlement) (st : Server) : Server :=
  let st1 :=
    {| dispatcher := dispatcher st; connectedClients := connectedClients st;
       sockets := sockets st; timers := timers st; outstanding := outstanding st;
       wire := wire st; nextId := nextId st; awaiting := awaiting st;
       statusCalls := statusCalls st; settled := settled st ++ [(p, s)];
       responses := responses st; clock := clock st |} in
  match awaiting st !! p with
  | Some res => respond res (send_command_response s) st1
  | None => st1
  end.

(** The callback [processQueue] gives to [port.write]. *)
Definition write_callback (now : Z) (entry : QueueEntry) (err : WriteError)
    (st : Server) : Server :=
  let st1 :=
    match err with
    | Some message =>
        settle (promise entry) (Rejected (lit "Error sending command: " ++ message)) st
    | None =>
        settle (promise entry) (Resolved true (trim (command entry))) st
    end in
  let d := dispatcher st1 in
  processQueue now
    (set_dispatcher
       {| commandQueue := commandQueue d;
          isProcessingQueue := false;
          lastCommandTime := lastCommandTime d |} st1).

(** [queueCommand(command)]: a new promise whose executor pushes the entry
    and calls [processQueue]; returns the promise. *)
Definition queueCommand (now : Z) (cmd : jsstring) (st : Server) : nat * Server :=
  let p := nextId st in
  let d := dispatcher st in
  let st1 :=
    set_calls (S p) (awaiting st) (statusCalls st)
      (set_dispatcher
         {| commandQueue := commandQueue d ++ [{| command := cmd; promise := p |}];
            isProcessingQueue := isProcessingQueue d;
            lastCommandTime := lastCommandTime d |} st) in
  (p, processQueue now st1).

(** [command.endsWith('\r\n') ? command : command + '\r\n']. *)
Definition formatted (c : jsstring) : jsstring :=
  if endsWith CRLF c then c else c ++ CRLF.

(** Handler of POST /send-command, up to its [await]; [cmd] is the
    [command] field of the body ([None]: absent). *)
Definition post_send_command (now : Z) (res : nat) (cmd : option jsstring)
    (st : Server) : Server :=
  match cmd with
  | Some c =>
      if truthy c then
        let formattedCommand := formatted c in
        let '(p, st1) := queueCommand now formattedCommand st in
        set_calls (nextId st1) (<[p := res]> (awaiting st1)) (statusCalls st1) st1
      else respond res {| status := 400; body := ErrorObject (lit "Command is required") |} st
  | None => respond res {| status := 400; body := ErrorObject (lit "Command is required") |} st
  end.

(** Handler of GET /queue-status. *)
Definition get_queue_status (res : nat) (st : Server) : Server :=
  let d := dispatcher st in
  respond res
    {| status := 200;
       body := QueueStatusObject (Z.of_nat (length (commandQueue d)))
                 (isProcessingQueue d) RATE_LIMIT_MS |} st.

(* ===================================================================== *)
(** ** Status check: [sendCommand], [checkRFIDStatus], GET /check-rfid-status *)
(* ===================================================================== *)

(** [sendCommand(command)]: write at once, then pipe a new parser and wait
    for its first line.  Returns the call; [res] is the response object of
    the handler that awaits it. *)
Definition sendCommand (now : Z) (res : nat) (cmd : jsstring) (st : Server)
  : nat * Server :=
  let call := nextId st in
  let st1 := port_write now cmd (FromSendCommand call) st in
  (call,
   set_calls (S call) (awaiting st1)
     (<[call := {| call_res := res; call_listening := true; call_settled := false |}]>
        (statusCalls st1)) st1).

(** [checkRFIDStatus(xTalkChannel = '008')], up to its [await]. *)
Definition checkRFIDStatus (now : Z) (res : nat) (xTalkChannel : option jsstring)
    (st : Server) : nat * Server :=
  let xTalkChannel :=
    match xTalkChannel with
    | Some c => c
    | None => lit "008"
    end in
  let cmd := lit "X" ++ xTalkChannel ++ lit "B[]" ++ CRLF in
  sendCommand now res cmd st.

(** The handler of GET /check-rfid-status up to its [await]; [channel] is the
    query parameter, and [channel || '008'] the channel asked for. *)
Definition get_check_rfid_status (now : Z) (res : nat) (channel : option jsstring)
    (st : Server) : Server :=
  let xTalkChannel :=
    match channel with
    | Some c => if truthy c then c else lit "008"
    | None => lit "008"
    end in
  snd (checkRFIDStatus now res (Some xTalkChannel) st).

(** [res.status(500).send('Failed to check RFID status')]. *)
Definition failed_status_response : Response :=
  {| status := 500; body := Text (lit "Failed to check RFID status") |}.

(** The rest of that handler, [status] being what [checkRFIDStatus]
    returned ([None]: null). *)
Definition check_rfid_response (status : option jsstring) : Completion Response :=
  match status with
  | Some s =>
      if truthy s then
        tags <~ getStickers s ;;
        Normal {| status := 200; body := TagArray tags |}
      else Normal failed_status_response
  | None => Normal failed_status_response
  end.

(** The promise of [sendCommand] call [call] is resolved ([Some response]) or
    rejected ([None], which [checkRFIDStatus] turns into null); a promise
    already settled ignores it. *)
Definition finish_status_call (call : nat) (status : option jsstring)
    (st : Server) : Completion Server :=
  match statusCalls st !! call with
  | Some c =>
      if call_settled c then Normal st
      else
        r <~ check_rfid_response status ;;
        Normal
          (respond (call_res c) r
             (set_calls (nextId st) (awaiting st)
                (<[call := {| call_res := call_res c;
                              call_listening := call_listening c;
                              call_settled := true |}]> (statusCalls st)) st))
  | None => Normal st
  end.

(** The callback [sendCommand] gives to [port.write]. *)
Definition direct_write_callback (call : nat) (err : WriteError) (st : Server)
  : Completion Server :=
  match err with
  | Some _ => finish_status_call call None st
  | None => Normal st
  end.

(** The [once('data')] listener of call [call] receives [response]. *)
Definition call_listener (call : nat) (response : jsstring) (st : Server)
  : Completion Server :=
  match statusCalls st !! call with
  | Some c =>
      finish_status_call call (Some response)
        (set_calls (nextId st) (awaiting st)
           (<[call := {| call_res := call_res c;
                         call_listening := false;
                         call_settled := call_settled c |}]> (statusCalls st)) st)
  | None => Normal st
  end.

(* ===================================================================== *)
(** ** Broadcast hub *)
(* ===================================================================== *)

(** [client.send(data)] of the ws library: sending on a connection that is
    not open is taken to throw, the worst the library may do. *)
Definition ws_send (client : nat) (data : jsstring) (socks : gmap nat WebSocket)
  : Completion (gmap nat WebSocket) :=
  match socks !! client with
  | Some s =>
      if (readyState s =? 1)%N
      then Normal (<[client := {| readyState := readyState s;
                                  frames := frames s ++ [data] |}]> socks)
      else Throws "Error: WebSocket is not open"
  | None => Throws "TypeError: client.send is not a function"
  end.

(** [client.readyState === 1]. *)
Definition is_open (client : nat) (socks : gmap nat WebSocket) : bool :=
  match socks !! client with
  | Some s => (readyState s =? 1)%N
  | None => false
  end.

(** The [parser.on('data')] listener: [connectedClients.forEach(..)]. *)
Fixpoint broadcast (data : jsstring) (clients : list nat) (socks : gmap nat WebSocket)
  : Completion (gmap nat WebSocket) :=
  match clients with
  | [] => Normal socks
  | client :: rest =>
      if is_open client socks
      then socks1 <~ ws_send client data socks ;; broadcast data rest socks1
      else broadcast data rest socks
  end.

(** [Set.prototype.add] and [Set.prototype.delete]. *)
Definition set_add (x : nat) (s : list nat) : list nat :=
  if bool_decide (x ∈ s) then s else s ++ [x].

Definition set_delete (x : nat) (s : list nat) : list nat :=
  List.filter (fun y => negb (Nat.eqb y x)) s.

(* ===================================================================== *)
(** ** The event loop *)
(* ===================================================================== *)

(** What the environment can make happen; each is one callback of the
    source run to completion. *)
Inductive Event : Type :=
| PostSendCommand (res : nat) (cmd : option jsstring)
| GetQueueStatus (res : nat)
| GetCheckRfidStatus (res : nat) (channel : option jsstring)
| TimerFires
| WriteCompletes (i : nat) (err : WriteError)
| DeviceLine (data : jsstring)
| CallLine (call : nat) (response : jsstring)
| WsConnection (ws : nat)
| WsReadyState (ws : nat) (state : N)
| WsMessage (ws : nat) (message : jsstring)
| WsClose (ws : nat)
| WsError (ws : nat).

Inductive Outcome : Type :=
| Ran (st : Server)
| Crashed (what : string)
| NotEnabled.

Definition of_completion (c : Completion Server) : Outcome :=
  match c with
  | Normal st => Ran st
  | Throws w => Crashed w
  end.

(** Removes the first pending timer that is due at [now], if there is one.
    (All pending timers carry the same callback.) *)
Fixpoint take_due (now : Z) (ts : list Z) : option (list Z) :=
  match ts with
  | [] => None
  | t :: ts' =>
      if t <=? now then Some ts'
      else match take_due now ts' with
           | Some r => Some (t :: r)
           | None => None
           end
  end.

Definition handle (now : Z) (ev : Event) (st : Server) : Outcome :=
  match ev with
  | PostSendCommand res cmd => Ran (post_send_command now res cmd st)
  | GetQueueStatus res => Ran (get_queue_status res st)
  | GetCheckRfidStatus res channel => Ran (get_check_rfid_status now res channel st)
  | TimerFires =>
      match take_due now (timers st) with
      | Some ts => of_completion (timer_callback now (set_timers ts st))
      | None => NotEnabled
      end
  | WriteCompletes i err =>
      match outstanding st !! i with
      | Some cb =>
          let st1 := set_outstanding (delete i (outstanding st)) st in
          match cb with
          | FromQueue entry => Ran (write_callback now entry err st1)
          | FromSendCommand call => of_completion (direct_write_callback call err st1)
          end
      | None => NotEnabled
      end
  | DeviceLine data =>
      match broadcast data (connectedClients st) (sockets st) with
      | Normal socks => Ran (set_hub (connectedClients st) socks st)
      | Throws w => Crashed w
      end
  | CallLine call response =>
      match statusCalls st !! call with
      | Some c =>
          if call_listening c then of_completion (call_listener call response st)
          else NotEnabled
      | None => NotEnabled
      end
  | WsConnection ws =>
      match sockets st !! ws with
      | None =>
          Ran (set_hub (set_add ws (connectedClients st))
                 (<[ws := {| readyState := 1; frames := [] |}]> (sockets st)) st)
      | Some _ => NotEnabled
      end
  | WsReadyState ws state =>
      match sockets st !! ws with
      | Some s =>
          Ran (set_hub (connectedClients st)
                 (<[ws := {| readyState := state; frames := frames s |}]> (sockets st)) st)
      | None => NotEnabled
      end
  | WsMessage _ _ => Ran st
  | WsClose ws => Ran (set_hub (set_delete ws (connectedClients st)) (sockets st) st)
  | WsError ws => Ran (set_hub (set_delete ws (connectedClients st)) (sockets st) st)
  end.

(** One turn of the event loop at time [now]; the clock does not go back. *)
Definition step (now : Z) (ev : Event) (st : Server) : Outcome :=
  if clock st <=? now then handle now ev (set_clock now st) else NotEnabled.

Fixpoint run (evs : list (Z * Event)) (st : Server) : Outcome :=
  match evs with
  | [] => Ran st
  | (now, ev) :: rest =>
      match step now ev st with
      | Ran st1 => run rest st1
      | Crashed w => Crashed w
      | NotEnabled => NotEnabled
      end
  end.

(** The dispatcher's writes among a list of callbacks or of wire writes. *)
Definition queue_entry_of (cb : WriteCallback) : option QueueEntry :=
  match cb with
  | FromQueue e => Some e
  | FromSendCommand _ => None
  end.

Definition in_flight (st : Server) : list QueueEntry :=
  omap queue_entry_of (outstanding st).

Definition is_queue_write (w : WireWrite) : bool :=
  match origin w with
  | FromQueue _ => true
  | FromSendCommand _ => false
  end.

Definition queue_writes (st : Server) : list WireWrite :=
  List.filter is_queue_write (wire st).

(** The commands [queueCommand] is called with along a run, in order. *)
Fixpoint enqueued (evs : list (Z * Event)) : list jsstring :=
  match evs with
  | [] => []
  | (_, PostSendCommand _ (Some c)) :: rest =>
      if truthy c then formatted c :: enqueued rest else enqueued rest
  | _ :: rest => enqueued rest
  end.


(** Successive elements are at least [RATE_LIMIT_MS] apart. *)
Fixpoint spaced (times : list Z) : Prop :=
  match times with
  | [] => True
  | t1 :: rest =>
      match rest with
      | [] => True
      | t2 :: _ => t1 + RATE_LIMIT_MS <= t2 /\ spaced rest
      end
  end.

(** What the write callback settles the promise of [entry] with. *)
Definition settlement_of (entry : QueueEntry) (err : WriteError) : Settlement :=
  match err with
  | Some message => Rejected (lit "Error sending command: " ++ message)
  | None => Resolved true (trim (command entry))
  end.





(* ===================================================================== *)
(** ** The dispatcher invariant *)
(* ===================================================================== *)

(** The dispatcher is idle, or waits for its timer with a non-empty queue,
    or has exactly one write in flight and no timer. *)
Definition phase_ok (d : Dispatcher) (ts : list Z) (flying : list QueueEntry) : Prop :=
  (isProcessingQueue d = false /\ commandQueue d = [] /\ ts = [] /\ flying = [])
  \/ (isProcessingQueue d = true /\ commandQueue d <> [] /\ flying = []
      /\ exists due, ts = [due] /\ lastCommandTime d + RATE_LIMIT_MS <= due)
  \/ (isProcessingQueue d = true /\ ts = [] /\ exists e, flying = [e]).

Definition dispatcher_inv (st : Server) : Prop :=
  phase_ok (dispatcher st) (timers st) (in_flight st)
  /\ spaced (List.map issued (queue_writes st))
  /\ (forall t, last (List.map issued (queue_writes st)) = Some t ->
                t = lastCommandTime (dispatcher st)).

(** The commands the dispatcher has written, followed by those it holds. *)
Definition written_then_queued (st : Server) : list jsstring :=
  List.map payload (queue_writes st) ++ List.map command (commandQueue (dispatcher st)).

(** What is still to be settled: the entry in flight, then the queue. *)
Definition pending (st : Server) : list QueueEntry :=
  in_flight st ++ commandQueue (dispatcher st).


(* ===================================================================== *)
(** ** The specification's reading of three statements *)
(* ===================================================================== *)

(** The tokens of a line: the pieces, split on single spaces, of what stands
    between the first opening bracket and the closing bracket after it. *)
Definition tokens_of (line : jsstring) : list jsstring :=
  match index (split (lit "[") line) 1 with
  | Some inner =>
      match index (split (lit "]") inner) 0 with
      | Some bracketed => split (lit " ") bracketed
      | None => []
      end
  | None => []
  end.



(** The contract of POST /send-command as the specification words it: 400
    and nothing enqueued when the field is absent, and in every other case
    the command, terminated, is enqueued. *)
Definition send_command_contract_as_stated : Prop :=
  forall now res cmd st,
    match cmd with
    | None =>
        post_send_command now res cmd st
        = respond res {| status := 400; body := ErrorObject (lit "Command is required") |} st
    | Some c =>
        commandQueue (dispatcher (post_send_command now res cmd st))
        = commandQueue (dispatcher st) ++ [{| command := formatted c; promise := nextId st |}]
    end.

(** The dispatcher invariant as the specification words it: the busy flag
    is set exactly when a write is outstanding. *)
Definition busy_iff_write_outstanding (st : Server) : Prop :=
  isProcessingQueue (dispatcher st) = true <-> in_flight st <> [].

(* ===================================================================== *)
(** ** Port selection: [getSerialPort] *)
(* ===================================================================== *)

(** An element of [SerialPort.list()]; the two names only serve the
    listing printed when no port matches. *)
Record PortInfo : Type := mkPort {
  path : jsstring;
  friendlyName : option jsstring;
  manufacturer : option jsstring
}.

(** How start-up ends: [process.exit(code)], or a [SerialPort] opened on
    [path] at [baudRate]. *)
Inductive Startup : Type :=
| Exits (code : Z)
| Opens (selectedPort : jsstring) (baudRate : Z).

(** [getSerialPort()], given [process.platform], [process.argv[2]] and the
    ports [SerialPort.list()] returned. *)
Definition getSerialPort (platform : jsstring) (comPortArg : option jsstring)
    (ports : list PortInfo) : Completion Startup :=
  if (length ports =? 0)%nat then Normal (Exits 1)
  else
    let autodetect :=
      match index ports 0 with
      | Some first => Normal (Opens (path first) 115200)
      | None => Throws "TypeError: Cannot read properties of undefined"
      end in
    match comPortArg with
    | Some arg =>
        if truthy arg then
          let targetPath :=
            if str_eqb platform (lit "win32")
            then lit "COM" ++ arg
            else lit "/dev/ttyUSB" ++ arg in
          match List.find (fun p => str_eqb (path p) targetPath || endsWith arg (path p))
                  ports with
          | Some found => Normal (Opens (path found) 115200)
          | None => Normal (Exits 1)
          end
        else autodetect
    | None => autodetect
    end.

(* ===================================================================== *)
(** ** The test client: [sendCommand] of [nextest/script.js] *)
(* ===================================================================== *)

Module Client.

(** [sendCommand()] up to its [fetch]: the [command] field of the body it
    posts to /send-command, or [None] when it returns without a request.
    [value] is [commandInput.value]. *)
Definition sendCommand (value : jsstring) : option jsstring :=
  let command := trim value in
  if negb (truthy command) then None else Some command.

End Client.

(* ===================================================================== *)
(** ** Further invariants *)
(* ===================================================================== *)

(** The set holds no connection twice, and only connection objects. *)
Definition hub_inv (st : Server) : Prop :=
  NoDup (connectedClients st)
  /\ forall c, c ∈ connectedClients st -> is_Some (sockets st !! c).


(** The promises of [queueCommand]: those settled, in the order they were
    settled, then those pending, in service order. *)
Definition promise_ledger (st : Server) : list nat :=
  List.map fst (settled st) ++ List.map promise (pending st).

(** Everything written to the port, and everything queued to be, ends with
    the terminator. *)
Definition terminated (st : Server) : Prop :=
  Forall (fun w => endsWith CRLF (payload w) = true) (wire st)
  /\ Forall (fun e => endsWith CRLF (command e) = true) (commandQueue (dispatcher st)).

(** A string [trim] leaves alone: empty, or with no white space at either
    end. *)
Definition trimmed (s : jsstring) : Prop :=
  trimStart s = s /\ trimStart (rev s) = rev s.

(** The code units of [s] before the first one that [stop] accepts. *)
Fixpoint take_until (stop : N -> bool) (s : jsstring) : jsstring :=
  match s with
  | [] => []
  | c :: s' => if stop c then [] else c :: take_until stop s'
  end.

(** What a line contributes to [getStickers]: the code units after its
    first opening bracket, up to the next bracket of either kind. *)
Definition bracketed (rest : jsstring) : jsstring :=
  take_until (fun c => N.eqb c 91 || N.eqb c 93) rest.

(** The turns that concern neither the dispatcher nor the port: all but an
    accepted POST /send-command, a status check, the timer, and the
    completion of a write of the dispatcher. *)
Definition bystander (ev : Event) (st : Server) : Prop :=
  match ev with
  | PostSendCommand _ (Some c) => truthy c = false
  | PostSendCommand _ None => True
  | GetCheckRfidStatus _ _ => False
  | TimerFires => False
  | WriteCompletes i _ => exists call, outstanding st !! i = Some (FromSendCommand call)
  | _ => True
  end.

(** The callbacks of a call of [sendCommand]: its listener receiving a
    line, and the completion of its write. *)
Definition concerns_call (call : nat) (ev : Event) (st : Server) : Prop :=
  match ev with
  | CallLine k _ => k = call
  | WriteCompletes i _ => outstanding st !! i = Some (FromSendCommand call)
  | _ => False
  end.

(** Those of them that settle the promise of the call: the line, and the
    failure of the write. *)
Definition settles_call (call : nat) (ev : Event) (st : Server) : Prop :=
  match ev with
  | CallLine k _ => k = call
  | WriteCompletes i (Some _) => outstanding st !! i = Some (FromSendCommand call)
  | _ => False
  end.

(** Reduces the projections of the state records applied to the setters. *)
Ltac fields :=
  cbn [dispatcher connectedClients sockets timers outstanding wire nextId
       awaiting statusCalls settled responses clock commandQueue
       isProcessingQueue lastCommandTime set_dispatcher set_hub set_timers
       set_outstanding set_calls set_clock respond port_write] in *.

(* ===================================================================== *)
(** * Properties *)
(* ===================================================================== *)

(** ** Strings *)

Lemma str_eqb_eq (a b : jsstring) : str_eqb a b = true <-> a = b.
Proof.
  revert b; induction a as [|x a IH]; intros [|y b]; simpl; split; try congruence; try easy.
  - rewrite andb_true_iff, N.eqb_eq, IH. intros [-> ->]; reflexivity.
  - intros H; injection H as -> ->. rewrite N.eqb_refl. simpl. apply IH; reflexivity.
Qed.

Lemma includes_unit (c : N) (s : jsstring) : includes [c] s = true <-> In c s.
Proof.
  induction s as [|x s IH]; simpl.
  - split; [discriminate | tauto].
  - rewrite orb_true_iff, andb_true_r, N.eqb_eq, IH. intuition congruence.
Qed.

Lemma split_go_length sep skip cur s : (1 <= length (split_go sep skip cur s))%nat.
Proof.
  revert skip cur; induction s as [|c s IH]; intros skip cur; simpl; [lia|].
  destruct skip; [|apply IH].
  destruct (starts_with sep (c :: s)); simpl; [lia | apply IH].
Qed.

Lemma split_go_includes sep cur s :
  sep <> [] -> includes sep s = true -> (2 <= length (split_go sep 0 cur s))%nat.
Proof.
  intros Hsep; revert cur; induction s as [|c s IH]; intros cur Hin.
  - destruct sep; [congruence | discriminate].
  - cbn [split_go]. cbn [includes] in Hin.
    destruct (starts_with sep (c :: s)) eqn:E.
    + cbn [length]. pose proof (split_go_length sep (length sep - 1) [] s). lia.
    + apply IH. exact Hin.
Qed.

Lemma index_in_range {A} (l : list A) (i : nat) :
  (i < length l)%nat -> exists x, index l i = Some x.
Proof.
  intros H. unfold index. destruct (nth_error l i) eqn:E; [eauto|].
  apply nth_error_None in E. lia.
Qed.

(** ** Status parser *)

Lemma getStickers_total (s : jsstring) : exists tags, getStickers s = Normal tags.
Proof.
  unfold getStickers.
  destruct (truthy s); [|simpl; eauto].
  destruct (includes (lit "[") s) eqn:Hin; [|simpl; eauto].
  cbn [negb orb].
  destruct (index_in_range (split (lit "[") s) 1) as [inner ->].
  { pose proof (split_go_includes (lit "[") [] s ltac:(discriminate) Hin). exact H. }
  cbn [on_string cbind].
  destruct (index_in_range (split (lit "]") inner) 0) as [br ->].
  { pose proof (split_go_length (lit "]") 0 [] inner). exact H. }
  cbn [on_string cbind]. eauto.
Qed.

Lemma getStickers_no_bracket (s : jsstring) :
  ~ In 91%N s -> getStickers s = Normal [].
Proof.
  intros H. unfold getStickers.
  destruct (includes (lit "[") s) eqn:E.
  - apply (includes_unit 91%N) in E. contradiction.
  - rewrite orb_true_r. reflexivity.
Qed.

(** C4. [getStickers] returns normally on every string, and takes the
    values the specification lists: the three-token line gives mist and
    mask, an empty bracket pair gives nothing, a line without an opening
    bracket gives nothing, and a lone [d000] token gives nothing. *)
Theorem getStickers_total_and_vectors :
  (forall s : jsstring, exists tags, getStickers s = Normal tags)
  /\ getStickers (lit "X008B[d001 d000 d002]") = Normal [lit "mist"; lit "mask"]
  /\ getStickers (lit "X008B[]") = Normal []
  /\ (forall s : jsstring, ~ In 91%N s -> getStickers s = Normal [])
  /\ getStickers (lit "[d000]") = Normal [].
Proof.
  split; [exact getStickers_total|].
  split; [reflexivity|].
  split; [reflexivity|].
  split; [exact getStickers_no_bracket|].
  reflexivity.
Qed.

Lemma getStickers_total_and_vectors_witness :
  ~ In 91%N (lit "X008B") /\ getStickers (lit "X008B") = Normal [].
Proof.
  assert (H : ~ In 91%N (lit "X008B")).
  { simpl. intros H. repeat (destruct H as [H|H]; [discriminate H|]). exact H. }
  split; [exact H|].
  exact (proj1 (proj2 (proj2 (proj2 getStickers_total_and_vectors))) (lit "X008B") H).
Defined.


Lemma replace_unit_absent (c : N) (s : jsstring) :
  count_occ N.eq_dec s c = 0%nat -> replace [c] [] s = s.
Proof.
  induction s as [|x s IH]; simpl; [reflexivity|].
  destruct (N.eq_dec x c) as [->|Hne]; [discriminate|].
  intros H. assert (E : N.eqb c x = false) by (apply N.eqb_neq; congruence).
  rewrite E. simpl. f_equal. apply IH, H.
Qed.

(** [replace] with a one-unit pattern and the empty replacement removes the
    first occurrence and nothing after it. *)
Lemma replace_unit_first (c : N) (a b : jsstring) :
  count_occ N.eq_dec a c = 0%nat -> replace [c] [] (a ++ c :: b) = a ++ b.
Proof.
  induction a as [|x a IH]; simpl.
  - intros _. rewrite N.eqb_refl. reflexivity.
  - destruct (N.eq_dec x c) as [->|Hne]; [discriminate|].
    intros H. assert (E : N.eqb c x = false) by (apply N.eqb_neq; congruence).
    rewrite E. simpl. f_equal. apply IH, H.
Qed.


(** [getStickers] on a line with an opening bracket, in terms of the tokens
    of the line. *)
Lemma getStickers_tokens (line : jsstring) :
  includes (lit "[") line = true ->
  getStickers line =
  Normal
    (List.map (fun x => if str_eqb x (lit "001") then lit "mist" else lit "mask")
       (List.filter (fun x => negb (str_eqb x (lit "000")))
          (List.map (fun x => replace (lit "d") [] x)
             (List.filter (fun x => truthy x) (tokens_of line))))).
Proof.
  intros Hin. unfold getStickers, tokens_of. rewrite Hin.
  assert (Ht : truthy line = true) by (destruct line; [discriminate Hin | reflexivity]).
  rewrite Ht. cbn [negb orb].
  destruct (index_in_range (split (lit "[") line) 1) as [inner ->].
  { exact (split_go_includes (lit "[") [] line ltac:(discriminate) Hin). }
  cbn [on_string cbind].
  destruct (index_in_range (split (lit "]") inner) 0) as [br ->].
  { exact (split_go_length (lit "]") 0 [] inner). }
  reflexivity.
Qed.




(** ** GET /check-rfid-status *)






(** ** Broadcast hub *)

Lemma is_open_insert_ne (c client : nat) (s : WebSocket) (socks : gmap nat WebSocket) :
  c <> client -> is_open c (<[client := s]> socks) = is_open c socks.
Proof. intros H. unfold is_open. rewrite lookup_insert_ne by congruence. reflexivity. Qed.

(** The broadcast returns normally whatever the set and the connections;
    a client that is not open keeps its connection object as it was. *)
Lemma broadcast_skips (data : jsstring) (clients : list nat) :
  forall socks : gmap nat WebSocket,
  exists socks', broadcast data clients socks = Normal socks'
                 /\ forall c, is_open c socks = false -> socks' !! c = socks !! c.
Proof.
  induction clients as [|client rest IH]; intros socks; cbn [broadcast].
  - exists socks. split; [reflexivity | intros; reflexivity].
  - destruct (is_open client socks) eqn:Hopen.
    + unfold ws_send. unfold is_open in Hopen.
      destruct (socks !! client) as [s|] eqn:Hs; [|discriminate].
      rewrite Hopen. cbn [cbind].
      destruct (IH (<[client := {| readyState := readyState s;
                                   frames := frames s ++ [data] |}]> socks))
        as (socks' & Hrun & Hkeep).
      exists socks'. split; [exact Hrun|].
      intros c Hc.
      assert (Hne : c <> client).
      { intros ->. unfold is_open in Hc. rewrite Hs, Hopen in Hc. discriminate. }
      rewrite Hkeep by (rewrite is_open_insert_ne; assumption).
      apply lookup_insert_ne. congruence.
    + apply IH.
Qed.

(** Each open member of the set receives the line once; every other
    connection object is untouched. *)
Lemma broadcast_delivers (data : jsstring) (clients : list nat) :
  NoDup clients ->
  forall socks : gmap nat WebSocket,
  exists socks', broadcast data clients socks = Normal socks'
    /\ forall c,
        socks' !! c =
        match socks !! c with
        | Some s =>
            if bool_decide (c ∈ clients) && (readyState s =? 1)%N
            then Some {| readyState := readyState s; frames := frames s ++ [data] |}
            else Some s
        | None => None
        end.
Proof.
  induction clients as [|client rest IH]; intros Hnd socks; cbn [broadcast].
  - exists socks. split; [reflexivity|]. intros c.
    destruct (socks !! c); reflexivity.
  - apply NoDup_cons in Hnd as [Hfresh Hnd].
    destruct (is_open client socks) eqn:Hopen; unfold is_open in Hopen.
    + destruct (socks !! client) as [s|] eqn:Hs; [|discriminate].
      unfold ws_send. rewrite Hs, Hopen. cbn [cbind].
      destruct (IH Hnd (<[client := {| readyState := readyState s;
                                       frames := frames s ++ [data] |}]> socks))
        as (socks' & Hrun & Hall).
      exists socks'. split; [exact Hrun|]. intros c. rewrite Hall.
      destruct (decide (c = client)) as [->|Hne].
      * rewrite lookup_insert_eq, Hs. cbn [readyState].
        rewrite (bool_decide_eq_false_2 _ Hfresh).
        rewrite bool_decide_eq_true_2 by (left). rewrite Hopen. reflexivity.
      * rewrite lookup_insert_ne by congruence.
        destruct (socks !! c) as [sc|]; [|reflexivity].
        assert (E : bool_decide (c ∈ client :: rest) = bool_decide (c ∈ rest)).
        { apply bool_decide_ext. rewrite elem_of_cons. tauto. }
        rewrite E. reflexivity.
    + destruct (IH Hnd socks) as (socks' & Hrun & Hall).
      exists socks'. split; [exact Hrun|]. intros c. rewrite Hall.
      destruct (socks !! c) as [sc|] eqn:Hc; [|reflexivity].
      destruct (decide (c = client)) as [->|Hne].
      * rewrite Hc in Hopen. rewrite Hopen, !andb_false_r. reflexivity.
      * assert (E : bool_decide (c ∈ client :: rest) = bool_decide (c ∈ rest)).
        { apply bool_decide_ext. rewrite elem_of_cons. tauto. }
        rewrite E. reflexivity.
Qed.

Lemma step_device_line (now : Z) (data : jsstring) (st : Server) :
  clock st <= now ->
  exists socks',
    broadcast data (connectedClients st) (sockets st) = Normal socks'
    /\ step now (DeviceLine data) st
       = Ran (set_hub (connectedClients st) socks' (set_clock now st)).
Proof.
  intros Hclock. apply Z.leb_le in Hclock.
  destruct (broadcast_skips data (connectedClients st) (sockets st)) as (socks' & Hb & _).
  exists socks'. split; [exact Hb|].
  unfold step. rewrite Hclock. cbn [handle set_clock connectedClients sockets].
  rewrite Hb. reflexivity.
Qed.

(** C8. A device line broadcast to the empty set changes nothing (the step
    only advances the clock).  Whatever the set holds, the broadcast returns
    normally, leaves the set as it was, and leaves the connection object of
    every member that is not open as it was. *)
Theorem broadcast_empty_or_closed_subscriber :
  (forall (data : jsstring) (socks : gmap nat WebSocket),
      broadcast data [] socks = Normal socks)
  /\ (forall now data st,
        clock st <= now -> connectedClients st = [] ->
        step now (DeviceLine data) st = Ran (set_clock now st))
  /\ (forall now data st,
        clock st <= now ->
        exists st', step now (DeviceLine data) st = Ran st'
                    /\ connectedClients st' = connectedClients st
                    /\ dispatcher st' = dispatcher st
                    /\ forall c, is_open c (sockets st) = false ->
                                 sockets st' !! c = sockets st !! c).
Proof.
  split; [reflexivity|]. split.
  - intros now data st Hclock Hempty.
    destruct (step_device_line now data st Hclock) as (socks' & Hb & ->).
    rewrite Hempty in Hb |- *. cbn [broadcast] in Hb. injection Hb as <-.
    destruct st; cbn in *; subst; reflexivity.
  - intros now data st Hclock.
    destruct (step_device_line now data st Hclock) as (socks' & Hb & ->).
    eexists. split; [reflexivity|].
    split; [reflexivity|]. split; [reflexivity|].
    intros c Hc. cbn [set_hub sockets].
    destruct (broadcast_skips data (connectedClients st) (sockets st)) as (socks2 & Hb2 & Hkeep).
    rewrite Hb in Hb2. injection Hb2 as <-. apply Hkeep, Hc.
Qed.

Lemma broadcast_empty_or_closed_subscriber_witness :
  step 10 (DeviceLine (lit "X001A[3]")) initial = Ran (set_clock 10 initial)
  /\ exists st',
      step 10 (DeviceLine (lit "X001A[3]"))
        (set_hub [4%nat; 5%nat]
           (<[4%nat := mkSocket 3 []]> (<[5%nat := mkSocket 1 []]> ∅)) initial)
      = Ran st'
      /\ connectedClients st' = [4%nat; 5%nat]
      /\ sockets st' !! 4%nat = Some (mkSocket 3 []).
Proof.
  destruct broadcast_empty_or_closed_subscriber as (_ & H2 & H3).
  split.
  - apply H2; [vm_compute; discriminate | reflexivity].
  - destruct (H3 10 (lit "X001A[3]")
                (set_hub [4%nat; 5%nat]
                   (<[4%nat := mkSocket 3 []]> (<[5%nat := mkSocket 1 []]> ∅)) initial))
      as (st' & Hstep & Hset & _ & Hkeep); [vm_compute; discriminate|].
    exists st'. split; [exact Hstep|]. split; [exact Hset|].
    rewrite (Hkeep 4%nat); reflexivity.
Defined.

(** ** Status check *)

Lemma finish_status_call_dispatcher (call : nat) (status : option jsstring)
    (st st' : Server) :
  finish_status_call call status st = Normal st' ->
  dispatcher st' = dispatcher st /\ timers st' = timers st
  /\ wire st' = wire st /\ outstanding st' = outstanding st.
Proof.
  unfold finish_status_call.
  destruct (statusCalls st !! call) as [c|]; [|intros [= <-]; auto].
  destruct (call_settled c); [intros [= <-]; auto|].
  destruct (check_rfid_response status) as [r|w]; cbn [cbind]; [|discriminate].
  intros [= <-]. auto.
Qed.

(** C9. [sendCommand], and with it [checkRFIDStatus] and the handler of
    GET /check-rfid-status, writes to the port in the very turn it runs,
    whatever the busy flag and [lastCommandTime] are: the write is issued at
    that turn's time, with the callback of [sendCommand].  Neither that turn
    nor the two callbacks of the call (write completion, first line
    received) change the dispatcher: [commandQueue], [isProcessingQueue]
    and [lastCommandTime] stay as they were, and so do the pending timers. *)
Theorem status_check_bypasses_dispatcher :
  (forall now res cmd st,
      let st' := snd (sendCommand now res cmd st) in
      dispatcher st' = dispatcher st
      /\ timers st' = timers st
      /\ wire st' = wire st ++ [{| issued := now; payload := cmd;
                                   origin := FromSendCommand (nextId st) |}]
      /\ outstanding st' = outstanding st ++ [FromSendCommand (nextId st)])
  /\ (forall now res channel st,
        let xTalkChannel :=
          match channel with
          | Some c => if truthy c then c else lit "008"
          | None => lit "008"
          end in
        get_check_rfid_status now res channel st
        = snd (checkRFIDStatus now res (Some xTalkChannel) st)
        /\ checkRFIDStatus now res (Some xTalkChannel) st
           = sendCommand now res (lit "X" ++ xTalkChannel ++ lit "B[]" ++ CRLF) st)
  /\ (forall call err st st',
        direct_write_callback call err st = Normal st' ->
        dispatcher st' = dispatcher st /\ timers st' = timers st /\ wire st' = wire st)
  /\ (forall call response st st',
        call_listener call response st = Normal st' ->
        dispatcher st' = dispatcher st /\ timers st' = timers st /\ wire st' = wire st).
Proof.
  split; [|split; [|split]].
  - intros now res cmd st. cbv zeta. unfold sendCommand. cbn. auto.
  - intros now res channel st. cbv zeta. split; reflexivity.
  - intros call err st st'. unfold direct_write_callback.
    destruct err; [|intros [= <-]; auto].
    intros H. apply finish_status_call_dispatcher in H. tauto.
  - intros call response st st'. unfold call_listener.
    destruct (statusCalls st !! call) as [c|]; [|intros [= <-]; auto].
    intros H. apply finish_status_call_dispatcher in H. cbn in H. tauto.
Qed.

Lemma status_check_bypasses_dispatcher_witness :
  exists st',
    call_listener 0 (lit "X008B[d001]") (get_check_rfid_status 1001 3 None initial)
    = Normal st'
    /\ dispatcher st' = dispatcher initial
    /\ wire st' = [{| issued := 1001; payload := lit "X008B[]" ++ CRLF;
                      origin := FromSendCommand 0 |}].
Proof.
  eexists. split; [vm_compute; reflexivity|].
  destruct status_check_bypasses_dispatcher as (H1 & H2 & _ & H4).
  destruct (H2 1001 3%nat None initial) as (Hh & Hc).
  destruct (H1 1001 3%nat (lit "X008B[]" ++ CRLF) initial) as (Hd & _ & Hw1 & _).
  edestruct (H4 0%nat (lit "X008B[d001]") (get_check_rfid_status 1001 3 None initial))
    as (Hd' & _ & Hw); [vm_compute; reflexivity|].
  split.
  - rewrite Hd', Hh, Hc. exact Hd.
  - rewrite Hw, Hh, Hc. exact Hw1.
Defined.

(** ** POST /send-command *)

Lemma starts_with_spec (pat s : jsstring) :
  starts_with pat s = true <-> exists r, s = pat ++ r.
Proof.
  revert s; induction pat as [|p pat IH]; intros s; cbn [starts_with].
  - split; [intros _; exists s; reflexivity | reflexivity].
  - destruct s as [|c s].
    + split; [discriminate | intros [r Hr]; discriminate Hr].
    + rewrite andb_true_iff, N.eqb_eq, IH. split.
      * intros [-> [r ->]]. exists r. reflexivity.
      * intros [r Hr]. injection Hr as -> ->. eauto.
Qed.

Lemma endsWith_spec (suf s : jsstring) :
  endsWith suf s = true <-> exists p, s = p ++ suf.
Proof.
  unfold endsWith. rewrite starts_with_spec. split.
  - intros [r Hr]. exists (rev r).
    rewrite <- (rev_involutive s), Hr, rev_app_distr, rev_involutive. reflexivity.
  - intros [p ->]. exists (rev p). apply rev_app_distr.
Qed.

Lemma trimEnd_CRLF (c : jsstring) : trimEnd (c ++ CRLF) = trimEnd c.
Proof. unfold trimEnd. rewrite rev_app_distr. reflexivity. Qed.

Lemma trim_formatted (c : jsstring) : trim (formatted c) = trim c.
Proof.
  unfold formatted, trim. destruct (endsWith CRLF c); [reflexivity|].
  rewrite trimEnd_CRLF. reflexivity.
Qed.

Lemma processQueue_cases (now : Z) (st : Server) :
  let d := dispatcher st in
  (processQueue now st = st
   /\ (isProcessingQueue d = true \/ commandQueue d = []))
  \/ (processQueue now st
      = set_timers (timers st ++ [now + Z.max 0 (RATE_LIMIT_MS - (now - lastCommandTime d))])
          (set_dispatcher {| commandQueue := commandQueue d;
                             isProcessingQueue := true;
                             lastCommandTime := lastCommandTime d |} st)
      /\ isProcessingQueue d = false /\ commandQueue d <> []).
Proof.
  cbv zeta. unfold processQueue.
  destruct (isProcessingQueue (dispatcher st)); [left; auto|].
  destruct (commandQueue (dispatcher st)) as [|e q] eqn:E; [left; auto|].
  right. cbn. split; [reflexivity|]. split; [reflexivity | discriminate].
Qed.

Lemma processQueue_frame (now : Z) (st : Server) :
  let st' := processQueue now st in
  commandQueue (dispatcher st') = commandQueue (dispatcher st)
  /\ lastCommandTime (dispatcher st') = lastCommandTime (dispatcher st)
  /\ outstanding st' = outstanding st /\ wire st' = wire st
  /\ nextId st' = nextId st /\ awaiting st' = awaiting st
  /\ statusCalls st' = statusCalls st /\ settled st' = settled st
  /\ responses st' = responses st /\ clock st' = clock st
  /\ connectedClients st' = connectedClients st /\ sockets st' = sockets st.
Proof.
  cbv zeta. destruct (processQueue_cases now st) as [[-> _]|[-> _]]; cbn; tauto.
Qed.

Lemma post_send_command_missing (now : Z) (res : nat) (cmd : option jsstring) (st : Server) :
  cmd = None \/ cmd = Some [] ->
  post_send_command now res cmd st
  = respond res {| status := 400; body := ErrorObject (lit "Command is required") |} st.
Proof. intros [-> | ->]; reflexivity. Qed.

Lemma post_send_command_enqueues (now : Z) (res : nat) (c : jsstring) (st : Server) :
  c <> [] ->
  let st' := post_send_command now res (Some c) st in
  commandQueue (dispatcher st')
  = commandQueue (dispatcher st) ++ [{| command := formatted c; promise := nextId st |}]
  /\ awaiting st' !! nextId st = Some res
  /\ responses st' = responses st.
Proof.
  intros Hc. cbv zeta. unfold post_send_command.
  destruct c as [|x c]; [congruence|]. cbn [truthy].
  unfold queueCommand.
  match goal with |- context [processQueue now ?s] =>
    pose proof (processQueue_frame now s) as H; cbv zeta in H;
    destruct H as (Hq & _ & _ & _ & _ & Ha & _ & _ & Hr & _)
  end.
  cbn [set_calls dispatcher awaiting responses].
  rewrite Hq, Hr. cbn. rewrite lookup_insert_eq. auto.
Qed.

Lemma write_callback_responds (now : Z) (entry : QueueEntry) (err : WriteError)
    (res : nat) (st : Server) :
  awaiting st !! promise entry = Some res ->
  responses (write_callback now entry err st)
  = responses st ++ [(res, send_command_response (settlement_of entry err))].
Proof.
  intros Ha. unfold write_callback.
  match goal with |- context [processQueue now ?s] =>
    pose proof (processQueue_frame now s) as H; cbv zeta in H;
    destruct H as (_ & _ & _ & _ & _ & _ & _ & _ & Hr & _)
  end.
  rewrite Hr. destruct err; unfold settle; rewrite Ha; reflexivity.
Qed.

(** C6, as amended.  A command field that is absent or is the empty string
    gets 400 with the error "Command is required", and nothing is enqueued.
    Any other command is enqueued with the terminator appended exactly when
    it does not end with it; when its write completes the handler answers
    200 with success and the command trimmed, or 500 with the error text.
    PING sent to the idle server is written as PING and the terminator and
    answered with success and the command PING. *)
Theorem send_command_contract :
  (forall now res cmd st,
      cmd = None \/ cmd = Some [] ->
      post_send_command now res cmd st
      = respond res {| status := 400; body := ErrorObject (lit "Command is required") |} st)
  /\ (forall now res c st,
        c <> [] ->
        let st' := post_send_command now res (Some c) st in
        commandQueue (dispatcher st')
        = commandQueue (dispatcher st) ++ [{| command := formatted c; promise := nextId st |}]
        /\ awaiting st' !! nextId st = Some res
        /\ responses st' = responses st)
  /\ (forall c : jsstring,
        ((exists p, c = p ++ CRLF) -> formatted c = c)
        /\ (~ (exists p, c = p ++ CRLF) -> formatted c = c ++ CRLF)
        /\ trim (formatted c) = trim c)
  /\ (forall now entry err res st,
        awaiting st !! promise entry = Some res ->
        responses (write_callback now entry err st)
        = responses st
          ++ [(res,
               match err with
               | None => {| status := 200; body := SentObject true (trim (command entry)) |}
               | Some message =>
                   {| status := 500;
                      body := ErrorObject (lit "Error sending command: " ++ message) |}
               end)])
  /\ (exists st,
        run [(1000, PostSendCommand 7 (Some (lit "PING")));
             (1000, TimerFires);
             (1004, WriteCompletes 0 None)] initial = Ran st
        /\ List.map payload (wire st) = [lit "PING" ++ CRLF]
        /\ settled st = [(0%nat, Resolved true (lit "PING"))]
        /\ responses st
           = [(7%nat, {| status := 200; body := SentObject true (lit "PING") |})]).
Proof.
  split; [exact post_send_command_missing|].
  split; [exact post_send_command_enqueues|].
  split.
  { intros c. split; [|split].
    - intros H. apply endsWith_spec in H. unfold formatted. rewrite H. reflexivity.
    - intros H. unfold formatted. destruct (endsWith CRLF c) eqn:E; [|reflexivity].
      apply endsWith_spec in E. contradiction.
    - apply trim_formatted. }
  split.
  { intros now entry err res st Ha.
    rewrite (write_callback_responds now entry err res st Ha).
    destruct err; reflexivity. }
  eexists. split; [vm_compute; reflexivity|].
  split; [reflexivity|]. split; reflexivity.
Qed.

Lemma send_command_contract_witness :
  post_send_command 5 1 (Some []) initial
  = respond 1 {| status := 400; body := ErrorObject (lit "Command is required") |} initial
  /\ commandQueue (dispatcher (post_send_command 5 1 (Some (lit "PING")) initial))
     = [{| command := lit "PING" ++ CRLF; promise := 0 |}]
  /\ formatted (lit "PING" ++ CRLF) = lit "PING" ++ CRLF
  /\ responses
       (write_callback 9 {| command := lit "PING" ++ CRLF; promise := 0 |}
          (Some (lit "Port is not open"))
          (post_send_command 5 1 (Some (lit "PING")) initial))
     = [(1%nat, {| status := 500;
                   body := ErrorObject (lit "Error sending command: Port is not open") |})].
Proof.
  destruct send_command_contract as (H1 & H2 & H3 & H4 & _).
  split; [apply H1; right; reflexivity|].
  split; [apply (H2 5 1%nat (lit "PING") initial); discriminate|].
  split; [apply (H3 (lit "PING" ++ CRLF)); exists (lit "PING"); reflexivity|].
  apply (H4 9 {| command := lit "PING" ++ CRLF; promise := 0 |}
            (Some (lit "Port is not open")) 1%nat
            (post_send_command 5 1 (Some (lit "PING")) initial)).
  reflexivity.
Defined.

(** C6 as stated fails: a command field that is present but empty is
    answered 400 and not enqueued. *)
Lemma send_command_empty_counterexample :
  post_send_command 5 1 (Some []) initial
  = respond 1 {| status := 400; body := ErrorObject (lit "Command is required") |} initial
  /\ commandQueue (dispatcher (post_send_command 5 1 (Some []) initial)) = []
  /\ ~ send_command_contract_as_stated.
Proof.
  split; [reflexivity|]. split; [reflexivity|].
  intros H. specialize (H 5 1%nat (Some []) initial).
  cbv beta iota in H. discriminate H.
Qed.

(** ** Dispatcher: the invariant and its preservation *)

Lemma spaced_snoc (l : list Z) (t : Z) :
  spaced (l ++ [t]) <-> spaced l /\ (forall x, last l = Some x -> x + RATE_LIMIT_MS <= t).
Proof.
  induction l as [|a l IH].
  - cbn. split; [intros _; split; [exact I | discriminate] | intros _; exact I].
  - destruct l as [|b l].
    + cbn. split.
      * intros [H _]. split; [exact I|]. intros x [= <-]. exact H.
      * intros [_ H]. split; [apply H; reflexivity | exact I].
    + change (spaced ((a :: b :: l) ++ [t]))
        with (a + RATE_LIMIT_MS <= b /\ spaced ((b :: l) ++ [t])).
      change (spaced (a :: b :: l)) with (a + RATE_LIMIT_MS <= b /\ spaced (b :: l)).
      change (last (a :: b :: l)) with (last (b :: l)).
      rewrite IH. tauto.
Qed.

Lemma in_flight_snoc_direct (out : list WriteCallback) (call : nat) :
  omap queue_entry_of (out ++ [FromSendCommand call]) = omap queue_entry_of out.
Proof. rewrite omap_app. cbn. apply app_nil_r. Qed.

Lemma in_flight_snoc_queue (out : list WriteCallback) (e : QueueEntry) :
  omap queue_entry_of (out ++ [FromQueue e]) = omap queue_entry_of out ++ [e].
Proof. rewrite omap_app. reflexivity. Qed.

Lemma omap_delete_none {A B} (f : A -> option B) (l : list A) (i : nat) (x : A) :
  l !! i = Some x -> f x = None -> omap f (delete i l) = omap f l.
Proof.
  intros Hl Hf. rewrite <- (take_drop_middle l i x Hl) at 2.
  rewrite delete_take_drop, !omap_app. cbn. rewrite Hf. reflexivity.
Qed.

Lemma omap_delete_only {A B} (f : A -> option B) (l : list A) (i : nat) (x : A) (y z : B) :
  l !! i = Some x -> f x = Some y -> omap f l = [z] ->
  y = z /\ omap f (delete i l) = [].
Proof.
  intros Hl Hf. rewrite <- (take_drop_middle l i x Hl) at 1.
  rewrite delete_take_drop, !omap_app. cbn. rewrite Hf.
  destruct (omap f (take i l)) as [|a [|b r]]; cbn.
  - intros H. injection H as -> H. rewrite H. auto.
  - intros H. injection H as _ H. discriminate H.
  - intros H. injection H as _ H. discriminate H.
Qed.

(** The invariant only reads the dispatcher, the timers, the outstanding
    writes and the wire. *)
Lemma inv_frame (st st' : Server) :
  dispatcher st' = dispatcher st -> timers st' = timers st ->
  outstanding st' = outstanding st -> wire st' = wire st ->
  dispatcher_inv st -> dispatcher_inv st'.
Proof.
  unfold dispatcher_inv, in_flight, queue_writes. intros -> -> -> ->. tauto.
Qed.

(** [processQueue] called with the flag down, no timer and nothing in
    flight establishes the invariant. *)
Lemma processQueue_establishes (now : Z) (st : Server) :
  isProcessingQueue (dispatcher st) = false -> timers st = [] -> in_flight st = [] ->
  spaced (List.map issued (queue_writes st)) ->
  (forall t, last (List.map issued (queue_writes st)) = Some t ->
             t = lastCommandTime (dispatcher st)) ->
  dispatcher_inv (processQueue now st).
Proof.
  intros Hflag Hts Hfl Hsp Hlast.
  destruct (processQueue_cases now st) as [[-> Hc]|[-> [_ Hq]]]; cbv zeta in *.
  - split; [|split; assumption]. left.
    destruct Hc as [Hc|Hc]; [congruence|]. auto.
  - unfold dispatcher_inv, in_flight, queue_writes in *. fields.
    split; [|split; assumption]. right; left.
    rewrite Hts. repeat split; try assumption.
    eexists. split; [reflexivity|]. unfold RATE_LIMIT_MS. simpl. lia.
Qed.

Lemma processQueue_busy (now : Z) (st : Server) :
  isProcessingQueue (dispatcher st) = true -> processQueue now st = st.
Proof. intros H. unfold processQueue. rewrite H. reflexivity. Qed.

Lemma settle_frame (p : nat) (s : Settlement) (st : Server) :
  let st' := settle p s st in
  dispatcher st' = dispatcher st /\ timers st' = timers st
  /\ outstanding st' = outstanding st /\ wire st' = wire st
  /\ settled st' = settled st ++ [(p, s)] /\ clock st' = clock st.
Proof.
  cbv zeta. unfold settle. destruct (awaiting st !! p); cbn; tauto.
Qed.

Lemma queueCommand_inv (now : Z) (cmd : jsstring) (st : Server) :
  dispatcher_inv st -> dispatcher_inv (snd (queueCommand now cmd st)).
Proof.
  intros (Hph & Hsp & Hlast). unfold queueCommand. cbn [snd].
  destruct (isProcessingQueue (dispatcher st)) eqn:Hflag.
  - rewrite processQueue_busy by (fields; auto).
    unfold dispatcher_inv, in_flight, queue_writes in *. fields.
    split; [|split; assumption].
    destruct Hph as [(H & _)|[(_ & Hq & Hfl & Hdue)|(_ & Hts & He)]].
    + congruence.
    + right; left. repeat split; try assumption; try reflexivity.
      intros H. apply app_eq_nil in H as [_ H]. discriminate H.
    + right; right. repeat split; try assumption; reflexivity.
  - destruct Hph as [(_ & Hq & Hts & Hfl)|[(H & _)|(H & _)]]; try congruence.
    apply processQueue_establishes; unfold in_flight, queue_writes in *; fields;
      first [assumption | reflexivity].
Qed.

Lemma post_send_command_inv (now : Z) (res : nat) (cmd : option jsstring) (st : Server) :
  dispatcher_inv st -> dispatcher_inv (post_send_command now res cmd st).
Proof.
  intros Hinv. unfold post_send_command.
  destruct cmd as [c|]; [destruct (truthy c)|].
  - pose proof (queueCommand_inv now (formatted c) st Hinv) as H.
    destruct (queueCommand now (formatted c) st) as [p st1]. cbn [snd] in H.
    revert H. apply inv_frame; reflexivity.
  - revert Hinv. apply inv_frame; reflexivity.
  - revert Hinv. apply inv_frame; reflexivity.
Qed.

Lemma get_check_rfid_status_inv (now : Z) (res : nat) (channel : option jsstring)
    (st : Server) :
  dispatcher_inv st -> dispatcher_inv (get_check_rfid_status now res channel st).
Proof.
  unfold dispatcher_inv, in_flight, queue_writes, get_check_rfid_status, checkRFIDStatus,
    sendCommand.
  cbn [snd]. fields.
  rewrite in_flight_snoc_direct, List.filter_app. cbn [List.filter is_queue_write origin].
  rewrite app_nil_r. tauto.
Qed.

Lemma take_due_single (now due : Z) (ts : list Z) :
  take_due now [due] = Some ts -> ts = [] /\ due <= now.
Proof.
  cbn. destruct (due <=? now) eqn:E; [|discriminate].
  intros [= <-]. split; [reflexivity | apply Z.leb_le, E].
Qed.

Lemma timer_fires_inv (now : Z) (ts : list Z) (st : Server) :
  dispatcher_inv st -> take_due now (timers st) = Some ts ->
  exists entry rest,
    commandQueue (dispatcher st) = entry :: rest
    /\ in_flight st = []
    /\ timer_callback now (set_timers ts st)
       = Normal (port_write now (command entry) (FromQueue entry)
                   (set_dispatcher {| commandQueue := rest;
                                      isProcessingQueue := true;
                                      lastCommandTime := now |} (set_timers [] st)))
    /\ dispatcher_inv
         (port_write now (command entry) (FromQueue entry)
            (set_dispatcher {| commandQueue := rest;
                               isProcessingQueue := true;
                               lastCommandTime := now |} (set_timers [] st))).
Proof.
  intros (Hph & Hsp & Hlast) Hdue.
  destruct Hph as [(_ & _ & Hts & _)|[(Hflag & Hq & Hfl & due & Hts & Hgap)|(_ & Hts & _)]];
    try (rewrite Hts in Hdue; discriminate Hdue).
  rewrite Hts in Hdue. apply take_due_single in Hdue as [-> Hle].
  destruct (commandQueue (dispatcher st)) as [|entry rest] eqn:Hqueue; [congruence|].
  exists entry, rest. split; [reflexivity|]. split; [exact Hfl|].
  split.
  { unfold timer_callback. fields. rewrite Hqueue, Hflag. reflexivity. }
  unfold dispatcher_inv, in_flight, queue_writes in *. fields.
  rewrite in_flight_snoc_queue, Hfl, List.filter_app, List.map_app.
  cbn [List.filter is_queue_write origin List.map issued app].
  split; [|split].
  - right; right. repeat split. eexists; reflexivity.
  - apply spaced_snoc. split; [exact Hsp|].
    intros x Hx. apply Hlast in Hx. lia.
  - intros t. rewrite last_snoc. intros [= <-]. reflexivity.
Qed.

Lemma getStickers_response_total (status : option jsstring) :
  exists r, check_rfid_response status = Normal r.
Proof.
  unfold check_rfid_response. destruct status as [s|]; [|eauto].
  destruct (truthy s); [|eauto].
  destruct (getStickers_total s) as [tags ->]. cbn. eauto.
Qed.

Lemma finish_status_call_total (call : nat) (status : option jsstring) (st : Server) :
  exists st', finish_status_call call status st = Normal st'.
Proof.
  unfold finish_status_call. destruct (statusCalls st !! call) as [c|]; [|eauto].
  destruct (call_settled c); [eauto|].
  destruct (getStickers_response_total status) as [r ->]. cbn. eauto.
Qed.

Lemma write_completes_queue_inv (now : Z) (i : nat) (entry : QueueEntry)
    (err : WriteError) (st : Server) :
  dispatcher_inv st -> outstanding st !! i = Some (FromQueue entry) ->
  in_flight st = [entry]
  /\ in_flight (set_outstanding (delete i (outstanding st)) st) = []
  /\ timers st = []
  /\ dispatcher_inv (write_callback now entry err (set_outstanding (delete i (outstanding st)) st)).
Proof.
  intros (Hph & Hsp & Hlast) Hi.
  assert (Hfl : exists e, in_flight st = [e]).
  { destruct Hph as [(_ & _ & _ & Hfl)|[(_ & _ & Hfl & _)|(_ & _ & He)]]; [| |exact He];
      exfalso; unfold in_flight in Hfl;
      rewrite <- (take_drop_middle _ _ _ Hi), !omap_app in Hfl; cbn in Hfl;
      apply app_eq_nil in Hfl as [_ Hfl]; discriminate Hfl. }
  destruct Hfl as [e He].
  destruct (omap_delete_only queue_entry_of (outstanding st) i (FromQueue entry) entry e Hi
              eq_refl He) as [<- Hdel].
  assert (Hts : timers st = []).
  { destruct Hph as [(_ & _ & H & _)|[(_ & _ & Hfl & _)|(_ & H & _)]]; try exact H.
    rewrite He in Hfl. discriminate Hfl. }
  split; [exact He|]. split; [exact Hdel|]. split; [exact Hts|].
  unfold write_callback.
  set (st0 := set_outstanding (delete i (outstanding st)) st).
  set (s := match err with
            | Some message => settle (promise entry) (Rejected (lit "Error sending command: " ++ message)) st0
            | None => settle (promise entry) (Resolved true (trim (command entry))) st0
            end).
  assert (Hs : dispatcher s = dispatcher st /\ timers s = timers st
               /\ outstanding s = delete i (outstanding st) /\ wire s = wire st).
  { subst s. destruct err;
      match goal with |- context [settle ?p ?v st0] =>
        pose proof (settle_frame p v st0) as H; cbv zeta in H;
        destruct H as (-> & -> & -> & -> & _)
      end; subst st0; fields; tauto. }
  destruct Hs as (Hd & Ht & Ho & Hw).
  apply processQueue_establishes; unfold in_flight, queue_writes in *; fields;
    rewrite ?Hd, ?Ht, ?Ho, ?Hw; try assumption; reflexivity.
Qed.

Lemma write_completes_direct_inv (i call : nat) (err : WriteError) (st st' : Server) :
  dispatcher_inv st -> outstanding st !! i = Some (FromSendCommand call) ->
  direct_write_callback call err (set_outstanding (delete i (outstanding st)) st) = Normal st' ->
  dispatcher_inv st'.
Proof.
  intros (Hph & Hsp & Hlast) Hi Hcb.
  assert (H : dispatcher st' = dispatcher st /\ timers st' = timers st
              /\ wire st' = wire st /\ outstanding st' = delete i (outstanding st)).
  { unfold direct_write_callback in Hcb. destruct err.
    - apply finish_status_call_dispatcher in Hcb. fields. tauto.
    - injection Hcb as <-. fields. tauto. }
  destruct H as (Hd & Ht & Hw & Ho).
  unfold dispatcher_inv, in_flight, queue_writes in *.
  rewrite Hd, Ht, Hw, Ho.
  rewrite (omap_delete_none queue_entry_of _ i _ Hi eq_refl). tauto.
Qed.

Lemma call_listener_frame (call : nat) (response : jsstring) (st st' : Server) :
  call_listener call response st = Normal st' ->
  dispatcher st' = dispatcher st /\ timers st' = timers st
  /\ wire st' = wire st /\ outstanding st' = outstanding st.
Proof.
  unfold call_listener.
  destruct (statusCalls st !! call) as [c|]; [|intros [= <-]; auto].
  intros H. apply finish_status_call_dispatcher in H. fields. tauto.
Qed.

Lemma call_listener_total (call : nat) (response : jsstring) (st : Server) :
  exists st', call_listener call response st = Normal st'.
Proof.
  unfold call_listener. destruct (statusCalls st !! call); [|eauto].
  apply finish_status_call_total.
Qed.

(** Every callback keeps the invariant. *)
Lemma handle_inv (now : Z) (ev : Event) (st st' : Server) :
  dispatcher_inv st -> handle now ev st = Ran st' -> dispatcher_inv st'.
Proof.
  intros Hinv. destruct ev; cbn [handle].
  - intros [= <-]. apply post_send_command_inv, Hinv.
  - intros [= <-]. revert Hinv. apply inv_frame; reflexivity.
  - intros [= <-]. apply get_check_rfid_status_inv, Hinv.
  - destruct (take_due now (timers st)) as [ts|] eqn:Hdue; [|discriminate].
    destruct (timer_fires_inv now ts st Hinv Hdue) as (e & rest & _ & _ & -> & H).
    intros [= <-]. exact H.
  - destruct (outstanding st !! i) as [[entry|call]|] eqn:Hi; [| |discriminate].
    + intros [= <-]. apply (write_completes_queue_inv now i entry err st Hinv Hi).
    + destruct (direct_write_callback call err _) as [s|w] eqn:Hcb; [|discriminate].
      intros [= <-]. exact (write_completes_direct_inv i call err st s Hinv Hi Hcb).
  - destruct (broadcast data (connectedClients st) (sockets st)); [|discriminate].
    intros [= <-]. revert Hinv. apply inv_frame; reflexivity.
  - destruct (statusCalls st !! call) as [c|]; [|discriminate].
    destruct (call_listening c); [|discriminate].
    destruct (call_listener call response st) as [s|w] eqn:Hl; [|discriminate].
    intros [= <-]. apply call_listener_frame in Hl as (Hd & Ht & Hw & Ho).
    revert Hinv. apply inv_frame; assumption.
  - destruct (sockets st !! ws); [discriminate|].
    intros [= <-]. revert Hinv. apply inv_frame; reflexivity.
  - destruct (sockets st !! ws); [|discriminate].
    intros [= <-]. revert Hinv. apply inv_frame; reflexivity.
  - intros [= <-]. exact Hinv.
  - intros [= <-]. revert Hinv. apply inv_frame; reflexivity.
  - intros [= <-]. revert Hinv. apply inv_frame; reflexivity.
Qed.

(** No callback throws in a state that satisfies the invariant. *)
Lemma handle_no_crash (now : Z) (ev : Event) (st : Server) (w : string) :
  dispatcher_inv st -> handle now ev st <> Crashed w.
Proof.
  intros Hinv. destruct ev; cbn [handle]; try discriminate.
  - destruct (take_due now (timers st)) as [ts|] eqn:Hdue; [|discriminate].
    destruct (timer_fires_inv now ts st Hinv Hdue) as (e & rest & _ & _ & -> & _).
    discriminate.
  - destruct (outstanding st !! i) as [[entry|call]|]; try discriminate.
    unfold direct_write_callback. destruct err; [|discriminate].
    destruct (finish_status_call_total call None
                (set_outstanding (delete i (outstanding st)) st)) as [s ->].
    discriminate.
  - destruct (broadcast_skips data (connectedClients st) (sockets st)) as (s & -> & _).
    discriminate.
  - destruct (statusCalls st !! call) as [c|]; [|discriminate].
    destruct (call_listening c); [|discriminate].
    destruct (call_listener_total call response st) as [s ->]. discriminate.
  - destruct (sockets st !! ws); discriminate.
  - destruct (sockets st !! ws); discriminate.
Qed.

Lemma step_inv (now : Z) (ev : Event) (st st' : Server) :
  dispatcher_inv st -> step now ev st = Ran st' -> dispatcher_inv st'.
Proof.
  intros Hinv. unfold step. destruct (clock st <=? now); [|discriminate].
  apply handle_inv. revert Hinv. apply inv_frame; reflexivity.
Qed.

Lemma step_no_crash (now : Z) (ev : Event) (st : Server) (w : string) :
  dispatcher_inv st -> step now ev st <> Crashed w.
Proof.
  intros Hinv. unfold step. destruct (clock st <=? now); [|discriminate].
  apply handle_no_crash. revert Hinv. apply inv_frame; reflexivity.
Qed.

Lemma initial_inv : dispatcher_inv initial.
Proof.
  split; [left; repeat split|]. split; [exact I | discriminate].
Qed.

Lemma run_inv (evs : list (Z * Event)) :
  forall st st', dispatcher_inv st -> run evs st = Ran st' -> dispatcher_inv st'.
Proof.
  induction evs as [|[now ev] evs IH]; intros st st' Hinv; cbn [run].
  - intros [= <-]. exact Hinv.
  - destruct (step now ev st) as [st1| |] eqn:Hstep; try discriminate.
    apply IH. exact (step_inv now ev st st1 Hinv Hstep).
Qed.

Lemma run_no_crash (evs : list (Z * Event)) :
  forall st w, dispatcher_inv st -> run evs st <> Crashed w.
Proof.
  induction evs as [|[now ev] evs IH]; intros st w Hinv; cbn [run]; [discriminate|].
  destruct (step now ev st) as [st1|w1|] eqn:Hstep; [| |discriminate].
  - apply IH. exact (step_inv now ev st st1 Hinv Hstep).
  - exfalso. exact (step_no_crash now ev st w1 Hinv Hstep).
Qed.

(** ** Dispatcher: service order *)

Lemma order_frame (st st' : Server) :
  wire st' = wire st ->
  commandQueue (dispatcher st') = commandQueue (dispatcher st) ->
  written_then_queued st' = written_then_queued st.
Proof. unfold written_then_queued, queue_writes. intros -> ->. reflexivity. Qed.

Lemma write_callback_frame (now : Z) (entry : QueueEntry) (err : WriteError) (st : Server) :
  let st' := write_callback now entry err st in
  commandQueue (dispatcher st') = commandQueue (dispatcher st)
  /\ lastCommandTime (dispatcher st') = lastCommandTime (dispatcher st)
  /\ wire st' = wire st /\ outstanding st' = outstanding st
  /\ settled st' = settled st ++ [(promise entry, settlement_of entry err)]
  /\ clock st' = clock st.
Proof.
  cbv zeta. unfold write_callback.
  match goal with |- context [processQueue now ?s] =>
    pose proof (processQueue_frame now s) as H; cbv zeta in H;
    destruct H as (-> & -> & -> & -> & _ & _ & _ & -> & _ & -> & _)
  end.
  fields.
  destruct err;
    match goal with |- context [settle ?p ?v st] =>
      pose proof (settle_frame p v st) as H; cbv zeta in H;
      destruct H as (-> & _ & -> & -> & -> & ->)
    end; cbn [settlement_of]; tauto.
Qed.

Lemma handle_order (now : Z) (ev : Event) (st st' : Server) :
  handle now ev st = Ran st' ->
  written_then_queued st' = written_then_queued st ++ enqueued [(now, ev)].
Proof.
  destruct ev; cbn [handle enqueued]; rewrite ?app_nil_r.
  - intros [= <-]. unfold post_send_command.
    destruct cmd as [c|]; [destruct (truthy c)|]; rewrite ?app_nil_r;
      [|apply order_frame; reflexivity..].
    unfold queueCommand.
    match goal with |- context [processQueue now ?s] =>
      pose proof (processQueue_frame now s) as H; cbv zeta in H;
      destruct H as (Hq & _ & _ & Hw & _)
    end.
    unfold written_then_queued, queue_writes. fields. rewrite Hq, Hw. fields.
    rewrite List.map_app, app_assoc. reflexivity.
  - intros [= <-]. apply order_frame; reflexivity.
  - intros [= <-]. unfold written_then_queued, queue_writes, get_check_rfid_status,
      checkRFIDStatus, sendCommand.
    cbn [snd]. fields. rewrite List.filter_app.
    cbn [List.filter is_queue_write origin]. rewrite app_nil_r. reflexivity.
  - destruct (take_due now (timers st)) as [ts|]; [|discriminate].
    unfold timer_callback. fields.
    destruct (commandQueue (dispatcher st)) as [|entry rest] eqn:Hq; [discriminate|].
    intros [= <-]. unfold written_then_queued, queue_writes. fields. rewrite Hq.
    rewrite List.filter_app, List.map_app.
    cbn [List.filter is_queue_write origin List.map payload app].
    rewrite <- app_assoc. reflexivity.
  - destruct (outstanding st !! i) as [[entry|call]|]; [| |discriminate].
    + intros [= <-].
      pose proof (write_callback_frame now entry err
                    (set_outstanding (delete i (outstanding st)) st)) as H.
      cbv zeta in H. destruct H as (Hq & _ & Hw & _).
      apply order_frame; assumption.
    + unfold direct_write_callback. destruct err.
      * destruct (finish_status_call call None _) as [s|w] eqn:Hf; [|discriminate].
        intros [= <-]. apply finish_status_call_dispatcher in Hf as (Hd & _ & Hw & _).
        apply order_frame; [exact Hw | rewrite Hd; reflexivity].
      * intros [= <-]. apply order_frame; reflexivity.
  - destruct (broadcast data (connectedClients st) (sockets st)); [|discriminate].
    intros [= <-]. apply order_frame; reflexivity.
  - destruct (statusCalls st !! call) as [c|]; [|discriminate].
    destruct (call_listening c); [|discriminate].
    destruct (call_listener call response st) as [s|w] eqn:Hl; [|discriminate].
    intros [= <-]. apply call_listener_frame in Hl as (Hd & _ & Hw & _).
    apply order_frame; [exact Hw | rewrite Hd; reflexivity].
  - destruct (sockets st !! ws); [discriminate|].
    intros [= <-]. apply order_frame; reflexivity.
  - destruct (sockets st !! ws); [|discriminate].
    intros [= <-]. apply order_frame; reflexivity.
  - intros [= <-]. reflexivity.
  - intros [= <-]. apply order_frame; reflexivity.
  - intros [= <-]. apply order_frame; reflexivity.
Qed.

Lemma enqueued_cons (x : Z * Event) (rest : list (Z * Event)) :
  enqueued (x :: rest) = enqueued [x] ++ enqueued rest.
Proof.
  destruct x as [now ev]. destruct ev; try reflexivity.
  cbn [enqueued]. destruct cmd as [c|]; [|reflexivity].
  destruct (truthy c); reflexivity.
Qed.

Lemma run_order (evs : list (Z * Event)) :
  forall st st', run evs st = Ran st' ->
                 written_then_queued st' = written_then_queued st ++ enqueued evs.
Proof.
  induction evs as [|[now ev] evs IH]; intros st st'; cbn [run].
  - intros [= <-]. cbn. rewrite app_nil_r. reflexivity.
  - destruct (step now ev st) as [st1| |] eqn:Hstep; try discriminate.
    intros Hrun. rewrite (IH st1 st' Hrun), (enqueued_cons (now, ev) evs), app_assoc.
    f_equal. unfold step in Hstep. destruct (clock st <=? now); [|discriminate].
    rewrite (handle_order now ev _ st1 Hstep). reflexivity.
Qed.

(** ** Dispatcher: progress *)





(** ** Dispatcher: the claims *)





(** C7, as amended.  Along every run from the initial state, the busy flag
    is set exactly when the dispatcher's timer is pending or one of its
    writes is outstanding, and never both of those hold: the flag is up
    from the call of [processQueue] that arms the timer until the write
    completes. *)
Theorem busy_iff_timer_or_write (evs : list (Z * Event)) (st : Server) :
  run evs initial = Ran st ->
  (isProcessingQueue (dispatcher st) = true <-> (timers st <> [] \/ in_flight st <> []))
  /\ (in_flight st <> [] -> isProcessingQueue (dispatcher st) = true)
  /\ (timers st <> [] -> in_flight st = []).
Proof.
  intros Hrun.
  destruct (run_inv evs initial st initial_inv Hrun) as (Hph & _).
  destruct Hph as [(Hflag & _ & Hts & Hfl)|[(Hflag & _ & Hfl & due & Hts & _)|(Hflag & Hts & e & Hfl)]];
    rewrite Hflag, Hts, Hfl.
  - split; [split; [discriminate | intros [H|H]; congruence]|].
    split; congruence.
  - split; [split; [intros _; left; discriminate | reflexivity]|].
    split; congruence.
  - split; [split; [intros _; right; discriminate | reflexivity]|].
    split; congruence.
Qed.

Lemma busy_iff_timer_or_write_witness :
  exists st,
    run [(1000, PostSendCommand 7 (Some (lit "PING"))); (1000, TimerFires)] initial = Ran st
    /\ isProcessingQueue (dispatcher st) = true
    /\ in_flight st = [{| command := lit "PING" ++ CRLF; promise := 0 |}].
Proof.
  eexists. split; [vm_compute; reflexivity|].
  split; [|reflexivity].
  match goal with |- isProcessingQueue (dispatcher ?s) = true =>
    destruct (busy_iff_timer_or_write
                [(1000, PostSendCommand 7 (Some (lit "PING"))); (1000, TimerFires)] s)
      as (_ & H & _)
  end; [vm_compute; reflexivity|].
  apply H. discriminate.
Defined.

(** C7 as stated fails: after one command is enqueued the flag is up while
    the timer runs and no write has been issued yet. *)
Lemma busy_without_write_counterexample :
  exists st,
    run [(1000, PostSendCommand 7 (Some (lit "PING")))] initial = Ran st
    /\ isProcessingQueue (dispatcher st) = true
    /\ outstanding st = [] /\ wire st = []
    /\ ~ busy_iff_write_outstanding st.
Proof.
  eexists. split; [vm_compute; reflexivity|].
  split; [reflexivity|]. split; [reflexivity|]. split; [reflexivity|].
  unfold busy_iff_write_outstanding. intros [H _]. apply H; reflexivity.
Qed.

Lemma processQueue_flag_stays (now : Z) (st : Server) :
  isProcessingQueue (dispatcher st) = true ->
  isProcessingQueue (dispatcher (processQueue now st)) = true.
Proof. intros H. rewrite processQueue_busy; assumption. Qed.

(** The flag goes down only in the completion callback of a dispatcher
    write. *)
Lemma handle_clears_flag (now : Z) (ev : Event) (st st' : Server) :
  handle now ev st = Ran st' ->
  isProcessingQueue (dispatcher st) = true ->
  isProcessingQueue (dispatcher st') = false ->
  exists i err entry, ev = WriteCompletes i err
                      /\ outstanding st !! i = Some (FromQueue entry).
Proof.
  intros Hh Hup Hdown.
  assert (Hsame : dispatcher st' = dispatcher st -> False) by (intros E; congruence).
  destruct ev; cbn [handle] in Hh.
  - exfalso. injection Hh as <-. unfold post_send_command in Hdown.
    destruct cmd as [c|]; [destruct (truthy c)|]; fields; try congruence.
    unfold queueCommand in Hdown. fields.
    rewrite processQueue_flag_stays in Hdown by (fields; exact Hup). discriminate.
  - exfalso. injection Hh as <-. apply Hsame. reflexivity.
  - exfalso. injection Hh as <-. apply Hsame. reflexivity.
  - exfalso. destruct (take_due now (timers st)); [|discriminate].
    unfold timer_callback in Hh. fields.
    destruct (commandQueue (dispatcher st)); [discriminate|].
    injection Hh as <-. fields. congruence.
  - destruct (outstanding st !! i) as [[entry|call]|] eqn:Hi; [| |discriminate].
    + eauto.
    + exfalso. apply Hsame. unfold direct_write_callback in Hh. destruct err.
      * destruct (finish_status_call call None _) as [s|w] eqn:Hf; [|discriminate].
        injection Hh as <-. apply finish_status_call_dispatcher in Hf. tauto.
      * injection Hh as <-. reflexivity.
  - exfalso. destruct (broadcast data _ _); [|discriminate].
    injection Hh as <-. apply Hsame. reflexivity.
  - exfalso. destruct (statusCalls st !! call) as [c|]; [|discriminate].
    destruct (call_listening c); [|discriminate].
    destruct (call_listener call response st) as [s|w] eqn:Hl; [|discriminate].
    injection Hh as <-. apply call_listener_frame in Hl. tauto.
  - exfalso. destruct (sockets st !! ws); [discriminate|].
    injection Hh as <-. apply Hsame. reflexivity.
  - exfalso. destruct (sockets st !! ws); [|discriminate].
    injection Hh as <-. apply Hsame. reflexivity.
  - exfalso. injection Hh as <-. apply Hsame. reflexivity.
  - exfalso. injection Hh as <-. apply Hsame. reflexivity.
  - exfalso. injection Hh as <-. apply Hsame. reflexivity.
Qed.

(** Only the timer callback hands a command of the queue to the port. *)
Lemma handle_issues (now : Z) (ev : Event) (st st' : Server) :
  handle now ev st = Ran st' ->
  queue_writes st' <> queue_writes st -> ev = TimerFires.
Proof.
  intros Hh Hne.
  assert (Hsame : wire st' = wire st -> False).
  { intros E. apply Hne. unfold queue_writes. rewrite E. reflexivity. }
  destruct ev; cbn [handle] in Hh; try reflexivity; exfalso.
  - injection Hh as <-. apply Hsame. unfold post_send_command.
    destruct cmd as [c|]; [destruct (truthy c)|]; try reflexivity.
    unfold queueCommand.
    match goal with |- context [processQueue now ?s] =>
      pose proof (processQueue_frame now s) as H; cbv zeta in H;
      destruct H as (_ & _ & _ & Hw & _)
    end.
    fields. rewrite Hw. reflexivity.
  - injection Hh as <-. apply Hsame. reflexivity.
  - injection Hh as <-. apply Hne.
    unfold queue_writes, get_check_rfid_status, checkRFIDStatus, sendCommand.
    cbn [snd]. fields.
    rewrite List.filter_app. cbn [List.filter is_queue_write origin].
    apply app_nil_r.
  - destruct (outstanding st !! i) as [[entry|call]|]; [| |discriminate].
    + injection Hh as <-. apply Hsame.
      pose proof (write_callback_frame now entry err
                    (set_outstanding (delete i (outstanding st)) st)) as H.
      cbv zeta in H. tauto.
    + apply Hsame. unfold direct_write_callback in Hh. destruct err.
      * destruct (finish_status_call call None _) as [s|w] eqn:Hf; [|discriminate].
        injection Hh as <-. apply finish_status_call_dispatcher in Hf. tauto.
      * injection Hh as <-. reflexivity.
  - destruct (broadcast data _ _); [|discriminate].
    injection Hh as <-. apply Hsame. reflexivity.
  - destruct (statusCalls st !! call) as [c|]; [|discriminate].
    destruct (call_listening c); [|discriminate].
    destruct (call_listener call response st) as [s|w] eqn:Hl; [|discriminate].
    injection Hh as <-. apply call_listener_frame in Hl. tauto.
  - destruct (sockets st !! ws); [discriminate|].
    injection Hh as <-. apply Hsame. reflexivity.
  - destruct (sockets st !! ws); [|discriminate].
    injection Hh as <-. apply Hsame. reflexivity.
  - injection Hh as <-. apply Hsame. reflexivity.
  - injection Hh as <-. apply Hsame. reflexivity.
  - injection Hh as <-. apply Hsame. reflexivity.
Qed.

(** C2. Along every run from the initial state, whatever the interleaving
    of requests, timers, completions and other events: at most one write of
    the dispatcher is outstanding; [processQueue] returns at once when the
    flag is up; the flag goes down only in the completion callback of a
    dispatcher write; and a turn that issues a dispatcher write is the
    timer's, taken when no dispatcher write is outstanding.  No turn
    throws. *)
Theorem at_most_one_write_in_flight (evs : list (Z * Event)) (st : Server) :
  run evs initial = Ran st ->
  (length (in_flight st) <= 1)%nat
  /\ (isProcessingQueue (dispatcher st) = true -> forall now, processQueue now st = st)
  /\ (forall now ev st',
        step now ev st = Ran st' ->
        isProcessingQueue (dispatcher st) = true ->
        isProcessingQueue (dispatcher st') = false ->
        exists i err entry, ev = WriteCompletes i err
                            /\ outstanding st !! i = Some (FromQueue entry))
  /\ (forall now ev st',
        step now ev st = Ran st' ->
        queue_writes st' <> queue_writes st ->
        ev = TimerFires /\ in_flight st = [])
  /\ (forall now ev w, step now ev st <> Crashed w).
Proof.
  intros Hrun.
  pose proof (run_inv evs initial st initial_inv Hrun) as Hinv.
  split.
  { destruct Hinv as (Hph & _).
    destruct Hph as [(_ & _ & _ & ->)|[(_ & _ & -> & _)|(_ & _ & e & ->)]]; cbn; lia. }
  split; [intros Hflag now; apply processQueue_busy, Hflag|].
  split.
  { intros now ev st' Hstep Hup Hdown. unfold step in Hstep.
    destruct (clock st <=? now); [|discriminate].
    exact (handle_clears_flag now ev _ st' Hstep Hup Hdown). }
  split.
  { intros now ev st' Hstep Hne. unfold step in Hstep.
    destruct (clock st <=? now); [|discriminate].
    pose proof (handle_issues now ev _ st' Hstep Hne) as ->.
    split; [reflexivity|].
    cbn [handle] in Hstep. fields.
    destruct (take_due now (timers st)) as [ts|] eqn:Hdue; [|discriminate].
    assert (Hinv' : dispatcher_inv (set_clock now st))
      by (revert Hinv; apply inv_frame; reflexivity).
    destruct (timer_fires_inv now ts (set_clock now st) Hinv' Hdue) as (_ & _ & _ & Hfl & _).
    exact Hfl. }
  intros now ev w. apply step_no_crash, Hinv.
Qed.

Lemma at_most_one_write_in_flight_witness :
  exists st,
    run [(1000, PostSendCommand 1 (Some (lit "A")));
         (1000, TimerFires);
         (1001, PostSendCommand 2 (Some (lit "B")));
         (1001, GetCheckRfidStatus 3 None)] initial = Ran st
    /\ (length (in_flight st) <= 1)%nat
    /\ processQueue 1002 st = st
    /\ List.map payload (wire st) = [lit "A" ++ CRLF; lit "X008B[]" ++ CRLF].
Proof.
  eexists. split; [vm_compute; reflexivity|].
  match goal with |- (length (in_flight ?s) <= 1)%nat /\ _ =>
    destruct (at_most_one_write_in_flight
                [(1000, PostSendCommand 1 (Some (lit "A")));
                 (1000, TimerFires);
                 (1001, PostSendCommand 2 (Some (lit "B")));
                 (1001, GetCheckRfidStatus 3 None)] s) as (H1 & H2 & _)
  end; [vm_compute; reflexivity|].
  split; [exact H1|]. split; [apply H2; reflexivity | reflexivity].
Defined.



(* ===================================================================== *)
(** * Further properties of the code *)
(* ===================================================================== *)

(** ** Port selection *)

Lemma find_ext {A} (f g : A -> bool) (l : list A) :
  (forall x, f x = g x) -> List.find f l = List.find g l.
Proof.
  intros H. induction l as [|x l IH]; cbn; [reflexivity|].
  rewrite H, IH. reflexivity.
Qed.

Lemma target_or_suffix (prefix arg p : jsstring) :
  str_eqb p (prefix ++ arg) || endsWith arg p = endsWith arg p.
Proof.
  destruct (str_eqb p (prefix ++ arg)) eqn:E; [|reflexivity].
  apply str_eqb_eq in E. subst p. cbn [orb]. symmetry.
  apply endsWith_spec. exists prefix. reflexivity.
Qed.

(** X1. With a port argument, [getSerialPort] opens the first listed port
    whose path ends with the argument, at 115200 baud, and exits with code 1
    when no path does: the platform, and with it the exact target path,
    makes no difference. *)
Theorem getSerialPort_first_suffix_match
    (platform arg : jsstring) (ports : list PortInfo) :
  truthy arg = true ->
  getSerialPort platform (Some arg) ports
  = Normal match List.find (fun p => endsWith arg (path p)) ports with
           | Some found => Opens (path found) 115200
           | None => Exits 1
           end.
Proof.
  intros Harg. unfold getSerialPort. rewrite Harg.
  destruct ports as [|p0 ports]; [reflexivity|].
  cbn [length Nat.eqb].
  rewrite (find_ext _ (fun p => endsWith arg (path p))).
  - destruct (List.find _ (p0 :: ports)); reflexivity.
  - intros p. destruct (str_eqb platform (lit "win32")); apply target_or_suffix.
Qed.

Lemma getSerialPort_first_suffix_match_witness :
  getSerialPort (lit "win32") (Some (lit "1"))
    [mkPort (lit "COM11") None None; mkPort (lit "COM1") None None]
  = Normal (Opens (lit "COM11") 115200).
Proof.
  rewrite getSerialPort_first_suffix_match by reflexivity. reflexivity.
Defined.

(** X2. [getSerialPort] never throws.  It exits with code 1 on an empty
    port list; otherwise it exits with code 1 or opens, at 115200 baud, the
    path of one of the listed ports; and without an argument, or with the
    empty one, it opens the first listed port. *)
Theorem getSerialPort_outcomes
    (platform : jsstring) (comPortArg : option jsstring) (ports : list PortInfo) :
  exists r,
    getSerialPort platform comPortArg ports = Normal r
    /\ (r = Exits 1 \/ exists p, In p ports /\ r = Opens (path p) 115200)
    /\ (ports = [] -> r = Exits 1)
    /\ (forall p rest,
          (comPortArg = None \/ comPortArg = Some []) -> ports = p :: rest ->
          r = Opens (path p) 115200).
Proof.
  unfold getSerialPort. destruct ports as [|p0 ports].
  - exists (Exits 1). cbn. repeat split; auto. intros p rest _ H. discriminate H.
  - cbn [length Nat.eqb index nth_error].
    assert (Hauto : exists r, Normal (Opens (path p0) 115200) = Normal r
              /\ (r = Exits 1 \/ exists p, In p (p0 :: ports) /\ r = Opens (path p) 115200)
              /\ (p0 :: ports = [] -> r = Exits 1)
              /\ (forall p rest,
                    (comPortArg = None \/ comPortArg = Some []) -> p0 :: ports = p :: rest ->
                    r = Opens (path p) 115200)).
    { eexists. split; [reflexivity|]. split; [right; exists p0; split; [left|]; reflexivity|].
      split; [discriminate|]. intros p rest _ [= <- _]. reflexivity. }
    destruct comPortArg as [arg|]; [|exact Hauto].
    destruct (truthy arg) eqn:Harg; [|exact Hauto].
    destruct (List.find _ (p0 :: ports)) as [found|] eqn:Hfind.
    + exists (Opens (path found) 115200). split; [reflexivity|].
      split; [right; exists found; split; [|reflexivity]|].
      { apply List.find_some in Hfind. tauto. }
      split; [discriminate|].
      intros p rest [H|H] _; [discriminate H|].
      injection H as ->. discriminate Harg.
    + exists (Exits 1). split; [reflexivity|]. split; [left; reflexivity|].
      split; [discriminate|].
      intros p rest [H|H] _; [discriminate H|].
      injection H as ->. discriminate Harg.
Qed.

Lemma getSerialPort_outcomes_witness :
  exists r,
    getSerialPort (lit "linux") (Some [])
      [mkPort (lit "/dev/ttyACM0") None None; mkPort (lit "/dev/ttyUSB0") None None]
    = Normal r
    /\ r = Opens (lit "/dev/ttyACM0") 115200.
Proof.
  destruct (getSerialPort_outcomes (lit "linux") (Some [])
              [mkPort (lit "/dev/ttyACM0") None None; mkPort (lit "/dev/ttyUSB0") None None])
    as (r & Hr & _ & _ & Hfirst).
  exists r. split; [exact Hr|].
  apply (Hfirst _ _ (or_intror eq_refl) eq_refl).
Defined.

(** ** Status parser, further *)

(** X3. Whatever the line, [getStickers] returns only the tags mist and
    mask, and at most one tag per token of the line. *)
Theorem getStickers_tags_closed (line : jsstring) :
  exists tags,
    getStickers line = Normal tags
    /\ Forall (fun t => t = lit "mist" \/ t = lit "mask") tags
    /\ (length tags <= length (tokens_of line))%nat.
Proof.
  destruct (includes (lit "[") line) eqn:Hin.
  - rewrite (getStickers_tokens line Hin). eexists. split; [reflexivity|]. split.
    + apply Forall_forall. intros t Ht. apply list_elem_of_In, in_map_iff in Ht.
      destruct Ht as (x & <- & _). destruct (str_eqb x (lit "001")); auto.
    + rewrite length_map.
      etransitivity; [apply List.filter_length_le|].
      rewrite length_map. apply List.filter_length_le.
  - exists []. split; [|split; [constructor | cbn; lia]].
    unfold getStickers. rewrite Hin, orb_true_r. reflexivity.
Qed.

Lemma split_go_first (c : N) (cur s : jsstring) :
  index (split_go [c] 0 cur s) 0 = Some (rev cur ++ take_until (N.eqb c) s).
Proof.
  revert cur; induction s as [|x s IH]; intros cur; cbn [split_go take_until].
  - cbn. rewrite app_nil_r. reflexivity.
  - cbn [starts_with]. rewrite andb_true_r. destruct (N.eqb c x).
    + cbn. rewrite app_nil_r. reflexivity.
    + rewrite IH. cbn [rev]. rewrite <- app_assoc. reflexivity.
Qed.

Lemma split_go_second (c : N) (a r : jsstring) :
  ~ In c a ->
  forall cur, index (split_go [c] 0 cur (a ++ c :: r)) 1 = index (split_go [c] 0 [] r) 0.
Proof.
  induction a as [|x a IH]; intros Ha cur; cbn [app split_go starts_with].
  - rewrite N.eqb_refl. reflexivity.
  - assert (E : N.eqb c x = false).
    { apply N.eqb_neq. intros ->. apply Ha. left. reflexivity. }
    rewrite E. cbn [andb]. apply IH. intros H. apply Ha. right. exact H.
Qed.

Lemma take_until_twice (rest : jsstring) :
  take_until (N.eqb 93) (take_until (N.eqb 91) rest) = bracketed rest.
Proof.
  unfold bracketed. induction rest as [|x rest IH]; cbn [take_until]; [reflexivity|].
  rewrite (N.eqb_sym x 91), (N.eqb_sym x 93).
  destruct (N.eqb 91 x); [reflexivity|]. cbn [orb take_until].
  destruct (N.eqb 93 x); [reflexivity|]. rewrite IH. reflexivity.
Qed.

Lemma take_until_stop (stop : N -> bool) (r t : jsstring) (x : N) :
  stop x = true -> take_until stop (take_until stop r ++ x :: t) = take_until stop r.
Proof.
  intros Hx. induction r as [|y r IH]; cbn [take_until app].
  - rewrite Hx. reflexivity.
  - destruct (stop y) eqn:Hy; cbn [take_until app].
    + rewrite Hx. reflexivity.
    + rewrite Hy, IH. reflexivity.
Qed.

Lemma bracketed_closed (rest : jsstring) :
  bracketed (bracketed rest ++ [93%N]) = bracketed rest.
Proof. unfold bracketed. apply take_until_stop. reflexivity. Qed.

Lemma tokens_of_bracketed (a rest : jsstring) :
  ~ In 91%N a -> tokens_of (a ++ 91%N :: rest) = split (lit " ") (bracketed rest).
Proof.
  intros Ha. unfold tokens_of.
  change (split (lit "[") (a ++ 91%N :: rest))
    with (split_go [91%N] 0 [] (a ++ 91%N :: rest)).
  rewrite (split_go_second 91%N a rest Ha), split_go_first. cbn [rev app].
  change (split (lit "]") (take_until (N.eqb 91) rest))
    with (split_go [93%N] 0 [] (take_until (N.eqb 91) rest)).
  rewrite split_go_first. cbn [rev app]. rewrite take_until_twice. reflexivity.
Qed.

Lemma includes_bracket (a rest : jsstring) : includes (lit "[") (a ++ 91%N :: rest) = true.
Proof.
  apply (includes_unit 91%N). apply in_or_app. right. left. reflexivity.
Qed.

(** X4. Of a line with an opening bracket, [getStickers] reads only what
    stands between the first opening bracket and the next bracket of either
    kind: the tokens are the pieces of that stretch, and what comes before
    the bracket or after the stretch does not change the result. *)
Theorem getStickers_reads_first_bracket (a rest : jsstring) :
  ~ In 91%N a ->
  tokens_of (a ++ 91%N :: rest) = split (lit " ") (bracketed rest)
  /\ getStickers (a ++ 91%N :: rest) = getStickers (91%N :: bracketed rest ++ [93%N]).
Proof.
  intros Ha. split; [exact (tokens_of_bracketed a rest Ha)|].
  pose proof (includes_bracket [] (bracketed rest ++ [93%N])) as Hin.
  pose proof (tokens_of_bracketed [] (bracketed rest ++ [93%N]) (fun H => H)) as Htok.
  cbn [app] in Hin, Htok.
  rewrite (getStickers_tokens _ (includes_bracket a rest)).
  rewrite (getStickers_tokens _ Hin), Htok, (tokens_of_bracketed a rest Ha).
  rewrite bracketed_closed. reflexivity.
Qed.

Lemma getStickers_reads_first_bracket_witness :
  getStickers (lit "X008B[d001 d002[d003] d004]")
  = getStickers (lit "[d001 d002]").
Proof.
  assert (H : ~ In 91%N (lit "X008B")).
  { simpl. intros H. repeat (destruct H as [H|H]; [discriminate H|]). exact H. }
  exact (proj2 (getStickers_reads_first_bracket (lit "X008B")
                  (lit "d001 d002[d003] d004]") H)).
Defined.

(** ** Dispatcher, further: what each turn changes *)

Lemma finish_status_call_rest (call : nat) (status : option jsstring) (st st' : Server) :
  finish_status_call call status st = Normal st' ->
  settled st' = settled st /\ nextId st' = nextId st /\ clock st' = clock st
  /\ connectedClients st' = connectedClients st /\ sockets st' = sockets st
  /\ awaiting st' = awaiting st.
Proof.
  unfold finish_status_call.
  destruct (statusCalls st !! call) as [c|]; [|intros [= <-]; tauto].
  destruct (call_settled c); [intros [= <-]; tauto|].
  destruct (check_rfid_response status) as [r|w]; cbn [cbind]; [|discriminate].
  intros [= <-]. fields. tauto.
Qed.

(** A bystander turn leaves the dispatcher, the timers, the wire, the
    settlements, the identifiers, the writes in flight and the clock alone. *)
Lemma handle_bystander (now : Z) (ev : Event) (st st' : Server) :
  bystander ev st -> handle now ev st = Ran st' ->
  dispatcher st' = dispatcher st /\ timers st' = timers st /\ wire st' = wire st
  /\ settled st' = settled st /\ nextId st' = nextId st /\ clock st' = clock st
  /\ in_flight st' = in_flight st.
Proof.
  unfold in_flight. destruct ev; cbn [bystander handle]; intros Hb.
  - unfold post_send_command. destruct cmd as [c|]; [rewrite Hb|];
      intros [= <-]; fields; tauto.
  - intros [= <-]. fields. tauto.
  - contradiction.
  - contradiction.
  - destruct Hb as [call Hi]. rewrite Hi. unfold direct_write_callback.
    assert (Hfl : omap queue_entry_of (delete i (outstanding st))
                  = omap queue_entry_of (outstanding st))
      by exact (omap_delete_none queue_entry_of _ i _ Hi eq_refl).
    destruct err.
    + destruct (finish_status_call call None _) as [s|w] eqn:Hf; [|discriminate].
      intros [= <-].
      pose proof (finish_status_call_dispatcher _ _ _ _ Hf) as (-> & -> & -> & ->).
      pose proof (finish_status_call_rest _ _ _ _ Hf) as (-> & -> & -> & _).
      fields. tauto.
    + intros [= <-]. fields. tauto.
  - destruct (broadcast data _ _); [|discriminate]. intros [= <-]. fields. tauto.
  - destruct (statusCalls st !! call) as [c|] eqn:Hc; [|discriminate].
    destruct (call_listening c); [|discriminate].
    unfold call_listener. rewrite Hc.
    destruct (finish_status_call call (Some response) _) as [s|w] eqn:Hf; [|discriminate].
    intros [= <-].
    pose proof (finish_status_call_dispatcher _ _ _ _ Hf) as (-> & -> & -> & ->).
    pose proof (finish_status_call_rest _ _ _ _ Hf) as (-> & -> & -> & _).
    fields. tauto.
  - destruct (sockets st !! ws); [discriminate|]. intros [= <-]. fields. tauto.
  - destruct (sockets st !! ws); [|discriminate]. intros [= <-]. fields. tauto.
  - intros [= <-]. tauto.
  - intros [= <-]. fields. tauto.
  - intros [= <-]. fields. tauto.
Qed.

(** The four other turns. *)
Lemma handle_classes (now : Z) (ev : Event) (st st' : Server) :
  handle now ev st = Ran st' ->
  bystander ev st
  \/ (exists res c, ev = PostSendCommand res (Some c) /\ truthy c = true
                    /\ st' = post_send_command now res (Some c) st)
  \/ (exists res channel, ev = GetCheckRfidStatus res channel
                          /\ st' = get_check_rfid_status now res channel st)
  \/ (exists ts entry rest,
        ev = TimerFires /\ take_due now (timers st) = Some ts
        /\ commandQueue (dispatcher st) = entry :: rest
        /\ st' = port_write now (command entry) (FromQueue entry)
                   (set_dispatcher {| commandQueue := rest;
                                      isProcessingQueue := isProcessingQueue (dispatcher st);
                                      lastCommandTime := now |} (set_timers ts st)))
  \/ (exists i err entry,
        ev = WriteCompletes i err /\ outstanding st !! i = Some (FromQueue entry)
        /\ st' = write_callback now entry err
                   (set_outstanding (delete i (outstanding st)) st)).
Proof.
  destruct ev; cbn [handle bystander]; auto.
  - destruct cmd as [c|]; [|auto]. destruct (truthy c) eqn:Hc; [|auto].
    intros [= <-]. right; left. exists res, c. auto.
  - intros [= <-]. right; right; left. exists res, channel. auto.
  - destruct (take_due now (timers st)) as [ts|] eqn:Hdue; [|discriminate].
    unfold timer_callback. fields.
    destruct (commandQueue (dispatcher st)) as [|entry rest] eqn:Hq; [discriminate|].
    intros [= <-]. right; right; right; left. exists ts, entry, rest. auto.
  - destruct (outstanding st !! i) as [[entry|call]|] eqn:Hi; [| |discriminate].
    + intros [= <-]. right; right; right; right. exists i, err, entry. auto.
    + intros _. left. eauto.
Qed.

Lemma formatted_terminated (c : jsstring) : endsWith CRLF (formatted c) = true.
Proof.
  unfold formatted. destruct (endsWith CRLF c) eqn:E; [exact E|].
  apply endsWith_spec. exists c. reflexivity.
Qed.

Lemma post_effect (now : Z) (res : nat) (c : jsstring) (st : Server) :
  truthy c = true ->
  let st' := post_send_command now res (Some c) st in
  let d := dispatcher st in
  commandQueue (dispatcher st')
  = commandQueue d ++ [{| command := formatted c; promise := nextId st |}]
  /\ lastCommandTime (dispatcher st') = lastCommandTime d
  /\ wire st' = wire st /\ outstanding st' = outstanding st
  /\ settled st' = settled st /\ nextId st' = S (nextId st) /\ clock st' = clock st
  /\ (timers st' = timers st
      \/ timers st' = timers st ++ [now + Z.max 0 (RATE_LIMIT_MS - (now - lastCommandTime d))]).
Proof.
  intros Hc. cbv zeta. unfold post_send_command. rewrite Hc. unfold queueCommand.
  match goal with |- context [processQueue now ?s] =>
    pose proof (processQueue_frame now s) as H; cbv zeta in H;
    destruct H as (Hq & Hl & Ho & Hw & Hn & _ & _ & Hs & _ & Hk & _);
    destruct (processQueue_cases now s) as [[Hp _]|[Hp _]]
  end; fields; rewrite ?Hq, ?Hl, ?Ho, ?Hw, ?Hn, ?Hs, ?Hk; fields;
    repeat (split; [reflexivity|]); rewrite Hp; fields; auto.
Qed.

Lemma write_effect (now : Z) (entry : QueueEntry) (err : WriteError) (st : Server) :
  let st' := write_callback now entry err st in
  nextId st' = nextId st
  /\ (timers st' = timers st
      \/ timers st'
         = timers st ++ [now + Z.max 0 (RATE_LIMIT_MS
                                        - (now - lastCommandTime (dispatcher st)))]).
Proof.
  cbv zeta. unfold write_callback.
  set (s := match err with
            | Some message => settle (promise entry) (Rejected (lit "Error sending command: " ++ message)) st
            | None => settle (promise entry) (Resolved true (trim (command entry))) st
            end).
  assert (Hs : dispatcher s = dispatcher st /\ timers s = timers st /\ nextId s = nextId st).
  { subst s. destruct err; unfold settle; destruct (awaiting st !! promise entry);
      fields; tauto. }
  destruct Hs as (Hd & Ht & Hn).
  match goal with |- context [processQueue now ?x] =>
    pose proof (processQueue_frame now x) as H; cbv zeta in H;
    destruct H as (_ & _ & _ & _ & Hn' & _);
    destruct (processQueue_cases now x) as [[Hp _]|[Hp _]]
  end; rewrite Hn'; rewrite Hp; fields; rewrite ?Hd, ?Ht, ?Hn; auto.
Qed.

(** ** Everything written is terminated *)

Lemma terminated_frame (st st' : Server) :
  wire st' = wire st -> commandQueue (dispatcher st') = commandQueue (dispatcher st) ->
  terminated st -> terminated st'.
Proof. unfold terminated. intros -> ->. tauto. Qed.

Lemma handle_terminated (now : Z) (ev : Event) (st st' : Server) :
  terminated st -> handle now ev st = Ran st' -> terminated st'.
Proof.
  intros Hterm Hh.
  destruct (handle_classes now ev st st' Hh)
    as [Hb|[(res & c & _ & Hc & ->)|[(res & ch & _ & ->)|[(ts & e & rest & _ & _ & Hq & ->)
        |(i & err & e & _ & _ & ->)]]]].
  - destruct (handle_bystander now ev st st' Hb Hh) as (Hd & _ & Hw & _).
    revert Hterm. apply terminated_frame; [exact Hw | rewrite Hd; reflexivity].
  - pose proof (post_effect now res c st Hc) as H. cbv zeta in H.
    destruct H as (Hq & _ & Hw & _). destruct Hterm as [Hwire Hqueue].
    unfold terminated. rewrite Hq, Hw. split; [exact Hwire|].
    apply Forall_app. split; [exact Hqueue|].
    constructor; [apply formatted_terminated | constructor].
  - destruct Hterm as [Hwire Hqueue]. unfold terminated, get_check_rfid_status,
      checkRFIDStatus, sendCommand. cbn [snd]. fields. split; [|exact Hqueue].
    apply Forall_app. split; [exact Hwire|].
    constructor; [|constructor]. cbn [payload]. apply endsWith_spec.
    eexists. rewrite !app_assoc. reflexivity.
  - destruct Hterm as [Hwire Hqueue]. rewrite Hq in Hqueue.
    apply Forall_cons_1 in Hqueue as [He Hrest].
    unfold terminated. fields. split; [|exact Hrest].
    apply Forall_app. split; [exact Hwire|]. constructor; [exact He | constructor].
  - pose proof (write_callback_frame now e err
                  (set_outstanding (delete i (outstanding st)) st)) as H.
    cbv zeta in H. destruct H as (Hq & _ & Hw & _).
    revert Hterm. apply terminated_frame; assumption.
Qed.

Lemma run_terminated (evs : list (Z * Event)) :
  forall st st', terminated st -> run evs st = Ran st' -> terminated st'.
Proof.
  induction evs as [|[now ev] evs IH]; intros st st' Hterm; cbn [run].
  - intros [= <-]. exact Hterm.
  - destruct (step now ev st) as [st1| |] eqn:Hstep; try discriminate.
    apply IH. unfold step in Hstep. destruct (clock st <=? now); [|discriminate].
    apply (handle_terminated now ev (set_clock now st) st1); [|exact Hstep].
    revert Hterm. apply terminated_frame; reflexivity.
Qed.

(** X5. Along every run from the initial state, every payload handed to
    the port, by the dispatcher or by a status check, ends with the
    terminator, and so does every command still queued. *)
Theorem every_write_is_terminated (evs : list (Z * Event)) (st : Server) :
  run evs initial = Ran st ->
  Forall (fun w => exists body, payload w = body ++ CRLF) (wire st)
  /\ Forall (fun e => exists body, command e = body ++ CRLF) (commandQueue (dispatcher st)).
Proof.
  intros Hrun.
  assert (H0 : terminated initial) by (split; constructor).
  destruct (run_terminated evs initial st H0 Hrun) as [Hw Hq].
  split; (eapply Forall_impl; [eassumption|]); intros x Hx; apply endsWith_spec, Hx.
Qed.

Lemma every_write_is_terminated_witness :
  exists st,
    run [(1000, PostSendCommand 1 (Some (lit "X001B[2]")));
         (1000, GetCheckRfidStatus 2 (Some (lit "003")));
         (1001, TimerFires)] initial = Ran st
    /\ Forall (fun w => exists body, payload w = body ++ CRLF) (wire st)
    /\ List.map payload (wire st) = [lit "X003B[]" ++ CRLF; lit "X001B[2]" ++ CRLF].
Proof.
  eexists. split; [vm_compute; reflexivity|].
  split; [|reflexivity].
  match goal with |- Forall _ (wire ?s) =>
    apply (every_write_is_terminated
             [(1000, PostSendCommand 1 (Some (lit "X001B[2]")));
              (1000, GetCheckRfidStatus 2 (Some (lit "003")));
              (1001, TimerFires)] s)
  end.
  vm_compute. reflexivity.
Defined.

(** ** Timing *)







(** ** Promises of [queueCommand] *)

Lemma StronglySorted_snoc (l : list nat) (x : nat) :
  StronglySorted lt l -> Forall (fun y => (y < x)%nat) l -> StronglySorted lt (l ++ [x]).
Proof.
  induction 1 as [|a l Hs IH Ha]; intros Hx; cbn [app].
  - constructor; constructor.
  - apply Forall_cons_1 in Hx as [Hax Hx]. constructor; [apply IH, Hx|].
    apply Forall_app. split; [exact Ha | constructor; [exact Hax | constructor]].
Qed.

Lemma StronglySorted_lt_NoDup (l : list nat) : StronglySorted lt l -> NoDup l.
Proof.
  induction 1 as [|a l Hs IH Ha]; constructor; [|exact IH].
  intros Hin. rewrite Forall_forall in Ha. specialize (Ha a Hin). lia.
Qed.

(** A turn leaves the ledger as it is, or appends the identifier it has
    just allocated. *)
Lemma handle_ledger (now : Z) (ev : Event) (st st' : Server) :
  dispatcher_inv st -> handle now ev st = Ran st' ->
  (promise_ledger st' = promise_ledger st /\ (nextId st <= nextId st')%nat)
  \/ (promise_ledger st' = promise_ledger st ++ [nextId st] /\ nextId st' = S (nextId st)).
Proof.
  intros Hinv Hh. unfold promise_ledger, pending.
  destruct (handle_classes now ev st st' Hh)
    as [Hb|[(res & c & _ & Hc & ->)|[(res & ch & _ & ->)|[(ts & e & rest & _ & Hdue & Hq & ->)
        |(i & err & e & _ & Hi & ->)]]]].
  - destruct (handle_bystander now ev st st' Hb Hh) as (-> & _ & _ & -> & -> & _ & ->).
    left. split; [reflexivity | lia].
  - pose proof (post_effect now res c st Hc) as H. cbv zeta in H.
    destruct H as (Hqueue & _ & _ & Ho & Hs & Hn & _).
    right. unfold in_flight. rewrite Hqueue, Ho, Hs, Hn. split; [|reflexivity].
    rewrite app_assoc, List.map_app, app_assoc. reflexivity.
  - left. unfold in_flight, get_check_rfid_status, checkRFIDStatus, sendCommand.
    cbn [snd]. fields. rewrite in_flight_snoc_direct. split; [reflexivity | lia].
  - destruct (timer_fires_inv now ts st Hinv Hdue) as (e' & rest' & Hq' & Hfl & _).
    left. unfold in_flight in *. fields.
    rewrite in_flight_snoc_queue, Hfl, Hq. split; [reflexivity | lia].
  - destruct (write_completes_queue_inv now i e err st Hinv Hi) as (Hfl & Hdel & _).
    pose proof (write_callback_frame now e err
                  (set_outstanding (delete i (outstanding st)) st)) as H.
    cbv zeta in H. destruct H as (Hq & _ & _ & Ho & Hs & _).
    pose proof (write_effect now e err
                  (set_outstanding (delete i (outstanding st)) st)) as H.
    cbv zeta in H. destruct H as (Hn & _).
    left. unfold in_flight in *. rewrite Hq, Ho, Hs, Hn. fields.
    rewrite Hdel, Hfl, List.map_app, <- app_assoc. split; [reflexivity | lia].
Qed.

Lemma run_ledger (evs : list (Z * Event)) :
  forall st st',
    dispatcher_inv st ->
    StronglySorted lt (promise_ledger st) ->
    Forall (fun p => (p < nextId st)%nat) (promise_ledger st) ->
    run evs st = Ran st' ->
    StronglySorted lt (promise_ledger st')
    /\ Forall (fun p => (p < nextId st')%nat) (promise_ledger st').
Proof.
  induction evs as [|[now ev] evs IH]; intros st st' Hinv Hsorted Hbound; cbn [run].
  - intros [= <-]. auto.
  - destruct (step now ev st) as [st1| |] eqn:Hstep; try discriminate.
    pose proof (step_inv now ev st st1 Hinv Hstep) as Hinv1.
    unfold step in Hstep. destruct (clock st <=? now); [|discriminate].
    assert (Hinv' : dispatcher_inv (set_clock now st))
      by (revert Hinv; apply inv_frame; reflexivity).
    apply (IH st1 st' Hinv1);
      destruct (handle_ledger now ev _ st1 Hinv' Hstep) as [[Hl Hn]|[Hl Hn]];
      change (promise_ledger (set_clock now st)) with (promise_ledger st) in Hl;
      cbn [nextId set_clock] in Hl, Hn; rewrite Hl.
    + exact Hsorted.
    + apply StronglySorted_snoc; assumption.
    + eapply Forall_impl; [exact Hbound|]. cbn. intros p Hp. lia.
    + rewrite Hn. apply Forall_app. split.
      * eapply Forall_impl; [exact Hbound|]. cbn. intros p Hp. lia.
      * constructor; [cbn beta; lia | constructor].
Qed.

(** X7. Along every run from the initial state, the promises settled so
    far followed by those still pending are in the order [queueCommand]
    created them: promises are settled in creation order, none is settled
    twice, and a settled promise is no longer pending. *)
Theorem promises_settle_once_in_order (evs : list (Z * Event)) (st : Server) :
  run evs initial = Ran st ->
  StronglySorted lt (List.map fst (settled st) ++ List.map promise (pending st))
  /\ NoDup (List.map fst (settled st))
  /\ (forall p, In p (List.map fst (settled st)) ->
                ~ In p (List.map promise (pending st)) /\ (p < nextId st)%nat).
Proof.
  intros Hrun.
  destruct (run_ledger evs initial st initial_inv) as (Hsorted & Hbound);
    [constructor | constructor | exact Hrun |].
  unfold promise_ledger in *.
  pose proof (StronglySorted_lt_NoDup _ Hsorted) as Hnd.
  apply NoDup_app in Hnd as (Hnd1 & Hdisj & _).
  split; [exact Hsorted|]. split; [exact Hnd1|].
  intros p Hp. split.
  - intros Hq. apply (Hdisj p); apply list_elem_of_In; assumption.
  - rewrite Forall_forall in Hbound. apply Hbound, list_elem_of_In, in_or_app. auto.
Qed.

Lemma promises_settle_once_in_order_witness :
  exists st,
    run [(1000, PostSendCommand 1 (Some (lit "A")));
         (1000, GetCheckRfidStatus 2 None);
         (1001, PostSendCommand 3 (Some (lit "B")));
         (1001, TimerFires);
         (1002, WriteCompletes 1 (Some (lit "closed")))] initial = Ran st
    /\ List.map fst (settled st) = [0%nat]
    /\ List.map promise (pending st) = [2%nat]
    /\ NoDup (List.map fst (settled st)).
Proof.
  eexists. split; [vm_compute; reflexivity|].
  split; [reflexivity|]. split; [reflexivity|].
  match goal with |- NoDup (List.map fst (settled ?s)) =>
    apply (promises_settle_once_in_order
             [(1000, PostSendCommand 1 (Some (lit "A")));
              (1000, GetCheckRfidStatus 2 None);
              (1001, PostSendCommand 3 (Some (lit "B")));
              (1001, TimerFires);
              (1002, WriteCompletes 1 (Some (lit "closed")))] s)
  end.
  vm_compute. reflexivity.
Defined.

(** ** GET /queue-status *)

(** X8. Along every run from the initial state, GET /queue-status answers
    200 with the queue length, the busy flag and a rate limit of 300, and
    changes nothing else of the dispatcher.  The length it reports is the
    number of commands enqueued so far less the number handed to the port,
    and it is 0 whenever the flag it reports is down. *)
Theorem queue_status_is_consistent
    (evs : list (Z * Event)) (st : Server) (now : Z) (res : nat) :
  run evs initial = Ran st -> clock st <= now ->
  exists st' queueLength isProcessing,
    step now (GetQueueStatus res) st = Ran st'
    /\ responses st'
       = responses st
         ++ [(res, {| status := 200;
                      body := QueueStatusObject queueLength isProcessing 300 |})]
    /\ dispatcher st' = dispatcher st
    /\ queueLength + Z.of_nat (length (queue_writes st)) = Z.of_nat (length (enqueued evs))
    /\ (isProcessing = false -> queueLength = 0).
Proof.
  intros Hrun Hclock. apply Z.leb_le in Hclock.
  exists (get_queue_status res (set_clock now st)),
    (Z.of_nat (length (commandQueue (dispatcher st)))),
    (isProcessingQueue (dispatcher st)).
  split; [unfold step; rewrite Hclock; reflexivity|].
  split; [reflexivity|]. split; [reflexivity|]. split.
  - pose proof (run_order evs initial st Hrun) as Horder.
    change (written_then_queued initial) with (@nil jsstring) in Horder.
    cbn [app] in Horder. rewrite <- Horder. unfold written_then_queued.
    rewrite length_app, !length_map. lia.
  - intros Hflag.
    destruct (run_inv evs initial st initial_inv Hrun) as (Hph & _).
    destruct Hph as [(_ & -> & _)|[(H & _)|(H & _)]]; [reflexivity|congruence..].
Qed.

Lemma queue_status_is_consistent_witness :
  exists st st',
    run [(1000, PostSendCommand 1 (Some (lit "A")));
         (1001, PostSendCommand 2 (Some (lit "B")));
         (1002, TimerFires)] initial = Ran st
    /\ step 1003 (GetQueueStatus 9) st = Ran st'
    /\ responses st' = [(9%nat, {| status := 200; body := QueueStatusObject 1 true 300 |})].
Proof.
  let o := eval vm_compute in
             (run [(1000, PostSendCommand 1 (Some (lit "A")));
                   (1001, PostSendCommand 2 (Some (lit "B")));
                   (1002, TimerFires)] initial) in
  match o with
  | Ran ?s =>
      exists s;
      destruct (queue_status_is_consistent
                  [(1000, PostSendCommand 1 (Some (lit "A")));
                   (1001, PostSendCommand 2 (Some (lit "B")));
                   (1002, TimerFires)] s 1003 9%nat)
        as (st' & n & b & Hstep & Hresp & _ & Hn & _);
        [vm_compute; reflexivity | vm_compute; discriminate |]
  end.
  exists st'. split; [vm_compute; reflexivity|]. split; [exact Hstep|].
  rewrite Hresp. vm_compute in Hstep. injection Hstep as <-. vm_compute in Hresp.
  injection Hresp as <- <-. reflexivity.
Defined.

(** ** Throughput *)




(** ** Broadcast hub, further *)

Lemma set_delete_In (x c : nat) (s : list nat) :
  In c (set_delete x s) <-> In c s /\ c <> x.
Proof.
  unfold set_delete. rewrite filter_In, negb_true_iff, Nat.eqb_neq. tauto.
Qed.

Lemma set_delete_absent (x : nat) (s : list nat) : ~ In x s -> set_delete x s = s.
Proof.
  unfold set_delete. induction s as [|y s IH]; intros H; cbn [List.filter]; [reflexivity|].
  assert (E : Nat.eqb y x = false).
  { apply Nat.eqb_neq. intros ->. apply H. left. reflexivity. }
  rewrite E. cbn [negb]. f_equal. apply IH. intros Hin. apply H. right. exact Hin.
Qed.

Lemma set_delete_NoDup (x : nat) (s : list nat) : NoDup s -> NoDup (set_delete x s).
Proof.
  unfold set_delete. induction 1 as [|y s Hy Hs IH]; cbn [List.filter]; [constructor|].
  destruct (negb (Nat.eqb y x)); [|exact IH]. constructor; [|exact IH].
  intros Hin. apply Hy. apply list_elem_of_In. apply list_elem_of_In in Hin.
  apply filter_In in Hin. tauto.
Qed.

Lemma set_add_NoDup (x : nat) (s : list nat) : NoDup s -> NoDup (set_add x s).
Proof.
  intros Hs. unfold set_add. destruct (bool_decide (x ∈ s)) eqn:E; [exact Hs|].
  apply bool_decide_eq_false in E. apply NoDup_app. split; [exact Hs|].
  split; [|apply NoDup_singleton].
  intros y Hy Hx. apply list_elem_of_singleton in Hx. subst y. contradiction.
Qed.

Lemma set_add_elem (x c : nat) (s : list nat) : c ∈ set_add x s <-> c ∈ s \/ c = x.
Proof.
  unfold set_add. destruct (bool_decide (x ∈ s)) eqn:E.
  - apply bool_decide_eq_true in E. split; [auto|]. intros [H| ->]; assumption.
  - rewrite elem_of_app, list_elem_of_singleton. tauto.
Qed.

Lemma write_callback_hub (now : Z) (entry : QueueEntry) (err : WriteError) (st : Server) :
  let st' := write_callback now entry err st in
  connectedClients st' = connectedClients st /\ sockets st' = sockets st.
Proof.
  cbv zeta. unfold write_callback.
  match goal with |- context [processQueue now ?x] =>
    pose proof (processQueue_frame now x) as H; cbv zeta in H;
    destruct H as (_ & _ & _ & _ & _ & _ & _ & _ & _ & _ & -> & ->)
  end.
  destruct err; unfold settle; destruct (awaiting st !! promise entry); fields; tauto.
Qed.

(** What a turn does to the set and to the connection objects. *)
Lemma handle_hub_cases (now : Z) (ev : Event) (st st' : Server) :
  handle now ev st = Ran st' ->
  (connectedClients st' = connectedClients st /\ sockets st' = sockets st)
  \/ (exists data, ev = DeviceLine data
        /\ connectedClients st' = connectedClients st
        /\ broadcast data (connectedClients st) (sockets st) = Normal (sockets st'))
  \/ (exists ws, ev = WsConnection ws /\ sockets st !! ws = None
        /\ connectedClients st' = set_add ws (connectedClients st)
        /\ sockets st' = <[ws := {| readyState := 1; frames := [] |}]> (sockets st))
  \/ (exists ws state s, ev = WsReadyState ws state /\ sockets st !! ws = Some s
        /\ connectedClients st' = connectedClients st
        /\ sockets st' = <[ws := {| readyState := state; frames := frames s |}]> (sockets st))
  \/ (exists ws, (ev = WsClose ws \/ ev = WsError ws)
        /\ connectedClients st' = set_delete ws (connectedClients st)
        /\ sockets st' = sockets st).
Proof.
  destruct ev; cbn [handle].
  - intros [= <-]. left. unfold post_send_command.
    destruct cmd as [c|]; [destruct (truthy c)|]; fields; auto.
    unfold queueCommand.
    match goal with |- context [processQueue now ?x] =>
      pose proof (processQueue_frame now x) as H; cbv zeta in H;
      destruct H as (_ & _ & _ & _ & _ & _ & _ & _ & _ & _ & Hc & Hs)
    end.
    fields. rewrite Hc, Hs. fields. auto.
  - intros [= <-]. left. auto.
  - intros [= <-]. left. auto.
  - destruct (take_due now (timers st)); [|discriminate]. unfold timer_callback. fields.
    destruct (commandQueue (dispatcher st)); [discriminate|].
    intros [= <-]. left. auto.
  - destruct (outstanding st !! i) as [[entry|call]|]; [| |discriminate].
    + intros [= <-]. left.
      exact (write_callback_hub now entry err (set_outstanding (delete i (outstanding st)) st)).
    + unfold direct_write_callback. destruct err.
      * destruct (finish_status_call call None _) as [s|w] eqn:Hf; [|discriminate].
        intros [= <-]. left. apply finish_status_call_rest in Hf. fields. tauto.
      * intros [= <-]. left. auto.
  - destruct (broadcast data _ _) as [socks|w] eqn:Hb; [|discriminate].
    intros [= <-]. right; left. exists data. auto.
  - destruct (statusCalls st !! call) as [c|] eqn:Hc; [|discriminate].
    destruct (call_listening c); [|discriminate].
    unfold call_listener. rewrite Hc.
    destruct (finish_status_call call (Some response) _) as [s|w] eqn:Hf; [|discriminate].
    intros [= <-]. left. apply finish_status_call_rest in Hf. fields. tauto.
  - destruct (sockets st !! ws) eqn:Hs; [discriminate|].
    intros [= <-]. right; right; left. exists ws. auto.
  - destruct (sockets st !! ws) as [s|] eqn:Hs; [|discriminate].
    intros [= <-]. right; right; right; left. exists ws, state, s. auto.
  - intros [= <-]. left. auto.
  - intros [= <-]. right; right; right; right. exists ws. auto.
  - intros [= <-]. right; right; right; right. exists ws. auto.
Qed.

Lemma handle_hub_inv (now : Z) (ev : Event) (st st' : Server) :
  hub_inv st -> handle now ev st = Ran st' -> hub_inv st'.
Proof.
  intros (Hnd & Hdom) Hh. unfold hub_inv.
  destruct (handle_hub_cases now ev st st' Hh)
    as [(-> & ->)|[(data & _ & -> & Hb)|[(ws & _ & Hfresh & -> & ->)
        |[(ws & state & s & _ & Hs & -> & ->)|(ws & _ & -> & ->)]]]].
  - auto.
  - split; [exact Hnd|]. intros c Hc.
    destruct (broadcast_delivers data _ Hnd (sockets st)) as (socks' & Hb' & Hall).
    rewrite Hb in Hb'. injection Hb' as <-. rewrite Hall.
    destruct (Hdom c Hc) as [s ->].
    destruct (bool_decide _ && _); eauto.
  - split; [apply set_add_NoDup, Hnd|]. intros c Hc. apply set_add_elem in Hc.
    destruct (decide (c = ws)) as [->|Hne].
    + rewrite lookup_insert_eq. eauto.
    + rewrite lookup_insert_ne by congruence. apply Hdom. tauto.
  - split; [exact Hnd|]. intros c Hc.
    destruct (decide (c = ws)) as [->|Hne].
    + rewrite lookup_insert_eq. eauto.
    + rewrite lookup_insert_ne by congruence. apply Hdom, Hc.
  - split; [apply set_delete_NoDup, Hnd|]. intros c Hc. apply Hdom.
    apply list_elem_of_In. apply list_elem_of_In, set_delete_In in Hc. tauto.
Qed.

Lemma initial_hub_inv : hub_inv initial.
Proof. split; [constructor|]. intros c Hc. inversion Hc. Qed.

Lemma run_hub_inv (evs : list (Z * Event)) :
  forall st st', hub_inv st -> run evs st = Ran st' -> hub_inv st'.
Proof.
  induction evs as [|[now ev] evs IH]; intros st st' Hinv; cbn [run].
  - intros [= <-]. exact Hinv.
  - destruct (step now ev st) as [st1| |] eqn:Hstep; try discriminate.
    apply IH. unfold step in Hstep. destruct (clock st <=? now); [|discriminate].
    exact (handle_hub_inv now ev (set_clock now st) st1 Hinv Hstep).
Qed.

Lemma device_line_delivers (now : Z) (data : jsstring) (st : Server) :
  hub_inv st -> clock st <= now ->
  exists st',
    step now (DeviceLine data) st = Ran st'
    /\ connectedClients st' = connectedClients st
    /\ clock st' = now
    /\ forall c,
        sockets st' !! c =
        match sockets st !! c with
        | Some s =>
            if bool_decide (c ∈ connectedClients st) && (readyState s =? 1)%N
            then Some {| readyState := readyState s; frames := frames s ++ [data] |}
            else Some s
        | None => None
        end.
Proof.
  intros (Hnd & _) Hclock. apply Z.leb_le in Hclock.
  destruct (broadcast_delivers data _ Hnd (sockets st)) as (socks' & Hb & Hall).
  eexists. split.
  { unfold step. rewrite Hclock. cbn [handle]. fields. rewrite Hb. reflexivity. }
  fields. auto.
Qed.

(** X10. In every state reached from the initial one, a device line is
    sent exactly once to each member of the set whose connection is open,
    appended to what it was sent before, and nothing else happens to any
    connection object or to the set. *)
Theorem device_line_reaches_each_open_client_once
    (evs : list (Z * Event)) (st : Server) (now : Z) (data : jsstring) :
  run evs initial = Ran st -> clock st <= now ->
  exists st',
    step now (DeviceLine data) st = Ran st'
    /\ connectedClients st' = connectedClients st
    /\ forall c,
        sockets st' !! c =
        match sockets st !! c with
        | Some s =>
            if bool_decide (c ∈ connectedClients st) && (readyState s =? 1)%N
            then Some {| readyState := readyState s; frames := frames s ++ [data] |}
            else Some s
        | None => None
        end.
Proof.
  intros Hrun Hclock.
  pose proof (run_hub_inv evs initial st initial_hub_inv Hrun) as Hinv.
  destruct (device_line_delivers now data st Hinv Hclock) as (st' & H1 & H2 & _ & H3).
  exists st'. auto.
Qed.

Lemma device_line_reaches_each_open_client_once_witness :
  exists st st',
    run [(1, WsConnection 4); (2, WsConnection 5); (3, WsReadyState 4 3)] initial = Ran st
    /\ step 10 (DeviceLine (lit "X001A[3]")) st = Ran st'
    /\ sockets st' !! 4%nat = Some (mkSocket 3 [])
    /\ sockets st' !! 5%nat = Some (mkSocket 1 [lit "X001A[3]"]).
Proof.
  let o := eval vm_compute in
             (run [(1, WsConnection 4); (2, WsConnection 5); (3, WsReadyState 4 3)] initial) in
  match o with
  | Ran ?s =>
      exists s;
      destruct (device_line_reaches_each_open_client_once
                  [(1, WsConnection 4); (2, WsConnection 5); (3, WsReadyState 4 3)]
                  s 10 (lit "X001A[3]"))
        as (st' & Hstep & _ & Hall);
        [vm_compute; reflexivity | vm_compute; discriminate |]
  end.
  exists st'. split; [vm_compute; reflexivity|]. split; [exact Hstep|].
  rewrite !Hall. split; reflexivity.
Defined.

(** X11. Unregistering is idempotent: after the close handler of a
    connection has run, its error handler (or a second close) leaves the set
    and the connection objects as they are; the connection is out of the
    set, and every other member is still in it. *)
Theorem unregister_twice_is_once
    (now1 now2 : Z) (ws : nat) (again : Event) (st st1 st2 : Server) :
  again = WsError ws \/ again = WsClose ws ->
  step now1 (WsClose ws) st = Ran st1 ->
  step now2 again st1 = Ran st2 ->
  connectedClients st2 = connectedClients st1
  /\ sockets st2 = sockets st
  /\ ~ In ws (connectedClients st1)
  /\ forall c, c <> ws -> (In c (connectedClients st1) <-> In c (connectedClients st)).
Proof.
  intros Hagain H1 H2. unfold step in H1, H2.
  destruct (clock st <=? now1); [|discriminate].
  destruct (clock st1 <=? now2); [|discriminate].
  cbn [handle] in H1. injection H1 as <-.
  assert (Hout : ~ In ws (set_delete ws (connectedClients st))).
  { rewrite set_delete_In. tauto. }
  assert (E : st2 = set_hub (set_delete ws (set_delete ws (connectedClients st)))
                      (sockets st) (set_clock now2 (set_hub (set_delete ws (connectedClients st))
                                                     (sockets st) (set_clock now1 st)))).
  { destruct Hagain as [-> | ->]; cbn [handle] in H2; injection H2 as <-; reflexivity. }
  rewrite E. fields. rewrite (set_delete_absent ws _ Hout).
  split; [reflexivity|]. split; [reflexivity|]. split; [exact Hout|].
  intros c Hc. rewrite set_delete_In. tauto.
Qed.

Lemma unregister_twice_is_once_witness :
  exists st st1 st2,
    run [(1, WsConnection 4); (2, WsConnection 5)] initial = Ran st
    /\ step 3 (WsClose 4) st = Ran st1
    /\ step 3 (WsError 4) st1 = Ran st2
    /\ connectedClients st2 = connectedClients st1
    /\ connectedClients st1 = [5%nat].
Proof.
  let o := eval vm_compute in (run [(1, WsConnection 4); (2, WsConnection 5)] initial) in
  match o with
  | Ran ?s0 =>
      let o1 := eval vm_compute in (step 3 (WsClose 4) s0) in
      match o1 with
      | Ran ?s1 =>
          let o2 := eval vm_compute in (step 3 (WsError 4) s1) in
          match o2 with
          | Ran ?s2 =>
              exists s0, s1, s2;
              destruct (unregister_twice_is_once 3 3 4%nat (WsError 4) s0 s1 s2)
                as (Hsame & _);
                [left; reflexivity | vm_compute; reflexivity | vm_compute; reflexivity |]
          end
      end
  end.
  split; [vm_compute; reflexivity|]. split; [vm_compute; reflexivity|].
  split; [vm_compute; reflexivity|]. split; [exact Hsame | reflexivity].
Defined.

(** Out of the set with a connection object, and with frames [sent]. *)
Lemma handle_unregistered (now : Z) (ev : Event) (st st' : Server)
    (ws : nat) (sent : list jsstring) :
  hub_inv st -> handle now ev st = Ran st' ->
  ~ In ws (connectedClients st) ->
  (exists s, sockets st !! ws = Some s /\ frames s = sent) ->
  ~ In ws (connectedClients st')
  /\ exists s', sockets st' !! ws = Some s' /\ frames s' = sent.
Proof.
  intros (Hnd & _) Hh Hout (s & Hs & Hsent).
  destruct (handle_hub_cases now ev st st' Hh)
    as [(-> & ->)|[(data & _ & -> & Hb)|[(ws' & _ & Hfresh & -> & ->)
        |[(ws' & state & s0 & _ & Hs0 & -> & ->)|(ws' & _ & -> & ->)]]]].
  - eauto.
  - split; [exact Hout|].
    destruct (broadcast_delivers data _ Hnd (sockets st)) as (socks' & Hb' & Hall).
    rewrite Hb in Hb'. injection Hb' as <-. rewrite Hall, Hs.
    rewrite bool_decide_eq_false_2 by (rewrite list_elem_of_In; exact Hout).
    cbn [andb]. eauto.
  - assert (Hne : ws <> ws') by (intros ->; congruence).
    split.
    + intros Hin. apply list_elem_of_In, set_add_elem in Hin.
      destruct Hin as [Hin|Hin]; [|congruence].
      apply Hout, list_elem_of_In, Hin.
    + rewrite lookup_insert_ne by congruence. eauto.
  - split; [exact Hout|]. destruct (decide (ws = ws')) as [<-|Hne].
    + rewrite lookup_insert_eq. rewrite Hs in Hs0. injection Hs0 as <-. eauto.
    + rewrite lookup_insert_ne by congruence. eauto.
  - split; [|eauto]. rewrite set_delete_In. tauto.
Qed.

Lemma run_unregistered (evs : list (Z * Event)) (ws : nat) (sent : list jsstring) :
  forall st st',
    hub_inv st -> run evs st = Ran st' ->
    ~ In ws (connectedClients st) ->
    (exists s, sockets st !! ws = Some s /\ frames s = sent) ->
    ~ In ws (connectedClients st')
    /\ exists s', sockets st' !! ws = Some s' /\ frames s' = sent.
Proof.
  induction evs as [|[now ev] evs IH]; intros st st' Hinv; cbn [run].
  - intros [= <-]. auto.
  - destruct (step now ev st) as [st1| |] eqn:Hstep; try discriminate.
    intros Hrun Hout Hs. unfold step in Hstep.
    destruct (clock st <=? now); [|discriminate].
    destruct (handle_unregistered now ev (set_clock now st) st1 ws sent Hinv Hstep Hout Hs)
      as (Hout1 & Hs1).
    apply (IH st1 st'); [|exact Hrun|exact Hout1|exact Hs1].
    exact (handle_hub_inv now ev (set_clock now st) st1 Hinv Hstep).
Qed.

(** X12. Once the close or error handler of a connection has run, nothing
    is ever sent to it again and it never comes back into the set,
    whatever happens afterwards. *)
Theorem unregistered_client_receives_nothing
    (evs evs2 : list (Z * Event)) (st st1 st2 : Server) (now : Z) (ws : nat)
    (gone : Event) (s : WebSocket) :
  gone = WsClose ws \/ gone = WsError ws ->
  run evs initial = Ran st ->
  sockets st !! ws = Some s ->
  step now gone st = Ran st1 ->
  run evs2 st1 = Ran st2 ->
  ~ In ws (connectedClients st2)
  /\ exists s2, sockets st2 !! ws = Some s2 /\ frames s2 = frames s.
Proof.
  intros Hgone Hrun Hs Hstep Hrun2.
  pose proof (run_hub_inv evs initial st initial_hub_inv Hrun) as Hinv.
  unfold step in Hstep. destruct (clock st <=? now); [|discriminate].
  pose proof (handle_hub_inv now gone (set_clock now st) st1 Hinv Hstep) as Hinv1.
  assert (E : connectedClients st1 = set_delete ws (connectedClients st)
              /\ sockets st1 = sockets st).
  { destruct Hgone as [-> | ->]; cbn [handle] in Hstep; injection Hstep as <-; auto. }
  destruct E as (Hc & Hsock).
  apply (run_unregistered evs2 ws (frames s) st1 st2 Hinv1 Hrun2).
  - rewrite Hc, set_delete_In. tauto.
  - rewrite Hsock. eauto.
Qed.

Lemma unregistered_client_receives_nothing_witness :
  exists st st1 st2 s2,
    run [(1, WsConnection 4); (2, WsConnection 5);
         (2, DeviceLine (lit "X001A[0]")); (3, WsReadyState 4 3)] initial = Ran st
    /\ step 3 (WsClose 4) st = Ran st1
    /\ run [(4, DeviceLine (lit "X001A[1]")); (5, WsReadyState 4 1);
            (6, DeviceLine (lit "X001A[2]"))] st1 = Ran st2
    /\ sockets st2 !! 4%nat = Some s2
    /\ frames s2 = [lit "X001A[0]"].
Proof.
  let o := eval vm_compute in
             (run [(1, WsConnection 4); (2, WsConnection 5);
                   (2, DeviceLine (lit "X001A[0]")); (3, WsReadyState 4 3)] initial) in
  match o with
  | Ran ?s0 =>
      let o1 := eval vm_compute in (step 3 (WsClose 4) s0) in
      match o1 with
      | Ran ?s1 =>
          let o2 := eval vm_compute in
                      (run [(4, DeviceLine (lit "X001A[1]")); (5, WsReadyState 4 1);
                            (6, DeviceLine (lit "X001A[2]"))] s1) in
          match o2 with
          | Ran ?s2 =>
              exists s0, s1, s2;
              destruct (unregistered_client_receives_nothing
                          [(1, WsConnection 4); (2, WsConnection 5);
                           (2, DeviceLine (lit "X001A[0]")); (3, WsReadyState 4 3)]
                          [(4, DeviceLine (lit "X001A[1]")); (5, WsReadyState 4 1);
                           (6, DeviceLine (lit "X001A[2]"))]
                          s0 s1 s2 3 4%nat (WsClose 4) (mkSocket 3 [lit "X001A[0]"]))
                as (_ & sock & Hsock & Hframes);
                [left; reflexivity | vm_compute; reflexivity | vm_compute; reflexivity
                 | vm_compute; reflexivity | vm_compute; reflexivity |]
          end
      end
  end.
  exists sock. split; [vm_compute; reflexivity|]. split; [vm_compute; reflexivity|].
  split; [vm_compute; reflexivity|]. split; [exact Hsock | exact Hframes].
Defined.

Lemma lines_deliver (lines : list (Z * jsstring)) :
  forall (st st' : Server) (c : nat) (s : WebSocket),
    hub_inv st ->
    run (List.map (fun l => (fst l, DeviceLine (snd l))) lines) st = Ran st' ->
    sockets st !! c = Some s -> c ∈ connectedClients st -> readyState s = 1%N ->
    sockets st' !! c
    = Some {| readyState := 1; frames := frames s ++ List.map snd lines |}.
Proof.
  induction lines as [|[t d] lines IH]; intros st st' c s Hinv; cbn [List.map run fst snd].
  - intros [= <-] Hs _ Hopen. rewrite app_nil_r, Hs. destruct s; cbn in *. congruence.
  - destruct (step t (DeviceLine d) st) as [st1| |] eqn:Hstep; try discriminate.
    intros Hrun Hs Hc Hopen.
    assert (Hclock : clock st <= t).
    { unfold step in Hstep. destruct (clock st <=? t) eqn:E; [|discriminate].
      apply Z.leb_le, E. }
    destruct (device_line_delivers t d st Hinv Hclock) as (st1' & Hstep' & Hset & _ & Hall).
    rewrite Hstep in Hstep'. injection Hstep' as <-.
    assert (Hinv1 : hub_inv st1).
    { unfold step in Hstep. destruct (clock st <=? t); [|discriminate].
      exact (handle_hub_inv t (DeviceLine d) (set_clock t st) st1 Hinv Hstep). }
    rewrite (IH st1 st' c {| readyState := readyState s; frames := frames s ++ [d] |}
               Hinv1 Hrun).
    + cbn [frames]. rewrite <- app_assoc. reflexivity.
    + rewrite Hall, Hs, Hopen. rewrite bool_decide_eq_true_2 by exact Hc. reflexivity.
    + rewrite Hset. exact Hc.
    + exact Hopen.
Qed.

(** X13. In every state reached from the initial one, a member of the set
    whose connection is open receives a sequence of device lines in the
    order the lines arrive, after what it was sent before. *)
Theorem lines_arrive_in_order
    (evs : list (Z * Event)) (lines : list (Z * jsstring)) (st st' : Server)
    (c : nat) (s : WebSocket) :
  run evs initial = Ran st ->
  run (List.map (fun l => (fst l, DeviceLine (snd l))) lines) st = Ran st' ->
  sockets st !! c = Some s -> In c (connectedClients st) -> readyState s = 1%N ->
  sockets st' !! c
  = Some {| readyState := 1; frames := frames s ++ List.map snd lines |}.
Proof.
  intros Hrun Hlines Hs Hc Hopen.
  apply (lines_deliver lines st st' c s); try assumption.
  - exact (run_hub_inv evs initial st initial_hub_inv Hrun).
  - apply list_elem_of_In, Hc.
Qed.

Lemma lines_arrive_in_order_witness :
  exists st',
    run [(2, DeviceLine (lit "X001A[1]")); (3, DeviceLine (lit "X001A[0]"))]
        (set_hub [4%nat] (<[4%nat := mkSocket 1 []]> ∅) (set_clock 1 initial)) = Ran st'
    /\ sockets st' !! 4%nat = Some (mkSocket 1 [lit "X001A[1]"; lit "X001A[0]"]).
Proof.
  eexists. split; [vm_compute; reflexivity|].
  rewrite (lines_arrive_in_order [(1, WsConnection 4)]
             [(2, lit "X001A[1]"); (3, lit "X001A[0]")]
             (set_hub [4%nat] (<[4%nat := mkSocket 1 []]> ∅) (set_clock 1 initial))
             _ 4%nat (mkSocket 1 []));
    [reflexivity | vm_compute; reflexivity | vm_compute; reflexivity
     | vm_compute; reflexivity | left; reflexivity | reflexivity].
Defined.

(** ** Status check, further *)

(** X14. A status request is answered by what happens first to its call.
    From any state, after the handler of GET /check-rfid-status has run: if
    its write fails, the request is answered 500 with the failure text; if
    its write succeeds, nothing is answered yet; and if a line reaches its
    listener, the request is answered with what the handler makes of that
    line. *)
Theorem status_request_outcomes
    (now : Z) (res : nat) (channel : option jsstring) (st : Server) :
  let st1 := get_check_rfid_status now res channel st in
  let i := length (outstanding st) in
  let call := nextId st in
  (forall now' message,
      clock st <= now' ->
      exists st2, step now' (WriteCompletes i (Some message)) st1 = Ran st2
                  /\ responses st2 = responses st ++ [(res, failed_status_response)])
  /\ (forall now',
        clock st <= now' ->
        exists st2, step now' (WriteCompletes i None) st1 = Ran st2
                    /\ responses st2 = responses st)
  /\ (forall now' line,
        clock st <= now' ->
        exists st2 r, step now' (CallLine call line) st1 = Ran st2
                      /\ check_rfid_response (Some line) = Normal r
                      /\ responses st2 = responses st ++ [(res, r)]).
Proof.
  cbv zeta. unfold get_check_rfid_status, checkRFIDStatus, sendCommand. cbn [snd].
  split; [|split].
  - intros now' message Hclock. apply Z.leb_le in Hclock.
    unfold step. fields. rewrite Hclock. cbn [handle]. fields.
    rewrite list_lookup_middle by reflexivity.
    unfold direct_write_callback, finish_status_call. fields.
    rewrite lookup_insert_eq. cbn [call_settled check_rfid_response cbind of_completion].
    eexists. split; reflexivity.
  - intros now' Hclock. apply Z.leb_le in Hclock.
    unfold step. fields. rewrite Hclock. cbn [handle]. fields.
    rewrite list_lookup_middle by reflexivity.
    cbn [direct_write_callback of_completion].
    eexists. split; reflexivity.
  - intros now' line Hclock. apply Z.leb_le in Hclock.
    destruct (getStickers_response_total (Some line)) as [r Hr].
    unfold step. fields. rewrite Hclock. cbn [handle]. fields.
    rewrite lookup_insert_eq. cbn [call_listening].
    unfold call_listener, finish_status_call. fields.
    rewrite lookup_insert_eq. fields. rewrite lookup_insert_eq.
    cbn [call_settled call_res call_listening]. rewrite Hr. cbn [cbind of_completion].
    eexists. exists r. split; [reflexivity|]. split; reflexivity.
Qed.

Lemma status_request_outcomes_witness :
  exists st2,
    step 7 (CallLine 0 (lit "X008B[d001 d002]")) (get_check_rfid_status 5 9 None initial)
    = Ran st2
    /\ responses st2
       = [(9%nat, {| status := 200; body := TagArray [lit "mist"; lit "mask"] |})].
Proof.
  destruct (status_request_outcomes 5 9%nat None initial) as (_ & _ & H).
  destruct (H 7 (lit "X008B[d001 d002]")) as (st2 & r & Hstep & Hr & Hresp);
    [vm_compute; discriminate|].
  exists st2. split; [exact Hstep|].
  rewrite Hresp. vm_compute in Hr. injection Hr as <-. reflexivity.
Defined.

Lemma finish_status_call_calls (call : nat) (status : option jsstring) (st st' : Server) :
  finish_status_call call status st = Normal st' ->
  forall k c, statusCalls st !! k = Some c ->
    exists c', statusCalls st' !! k = Some c'
               /\ (call_settled c = true -> call_settled c' = true)
               /\ (k = call -> call_settled c' = true).
Proof.
  unfold finish_status_call.
  destruct (statusCalls st !! call) as [c0|] eqn:Hc0.
  - destruct (call_settled c0) eqn:Hs0.
    + intros [= <-] k c Hk. exists c. split; [exact Hk|]. split; [auto|].
      intros ->. congruence.
    + destruct (check_rfid_response status) as [r|w]; cbn [cbind]; [|discriminate].
      intros [= <-] k c Hk. fields. destruct (decide (k = call)) as [->|Hne].
      * rewrite lookup_insert_eq. eexists. split; [reflexivity|]. cbn. auto.
      * rewrite lookup_insert_ne by congruence. exists c. split; [exact Hk|].
        split; [auto | contradiction].
  - intros [= <-] k c Hk. exists c. split; [exact Hk|]. split; [auto|].
    intros ->. congruence.
Qed.

Lemma write_callback_calls (now : Z) (entry : QueueEntry) (err : WriteError) (st : Server) :
  statusCalls (write_callback now entry err st) = statusCalls st.
Proof.
  unfold write_callback.
  match goal with |- context [processQueue now ?x] =>
    pose proof (processQueue_frame now x) as H; cbv zeta in H;
    destruct H as (_ & _ & _ & _ & _ & _ & -> & _)
  end.
  destruct err; unfold settle; destruct (awaiting st !! promise entry); reflexivity.
Qed.

(** Identifiers only grow, a call stays a call, a settled call stays
    settled, and a callback that settles a call leaves it settled. *)
Lemma handle_calls (now : Z) (ev : Event) (st st' : Server) :
  handle now ev st = Ran st' ->
  (nextId st <= nextId st')%nat
  /\ forall k c, statusCalls st !! k = Some c -> (k < nextId st)%nat ->
       exists c', statusCalls st' !! k = Some c'
                  /\ (call_settled c = true -> call_settled c' = true)
                  /\ (settles_call k ev st -> call_settled c' = true).
Proof.
  assert (Hsame : forall s : Server,
            statusCalls s = statusCalls st ->
            forall k c, statusCalls st !! k = Some c ->
              exists c', statusCalls s !! k = Some c'
                         /\ (call_settled c = true -> call_settled c' = true)).
  { intros s -> k c Hk. eauto. }
  destruct ev; cbn [handle settles_call].
  - intros [= <-]. unfold post_send_command.
    destruct cmd as [c0|]; [destruct (truthy c0)|]; fields.
    2,3: split; [lia|]; intros k c Hk _; exists c; tauto.
    unfold queueCommand.
    match goal with |- context [processQueue now ?x] =>
      pose proof (processQueue_frame now x) as H; cbv zeta in H;
      destruct H as (_ & _ & _ & _ & Hn & _ & Hc & _)
    end.
    fields. rewrite Hn, Hc. fields. split; [lia|].
    intros k c Hk _. exists c. tauto.
  - intros [= <-]. unfold get_queue_status. fields. split; [lia|].
    intros k c Hk _. exists c. tauto.
  - intros [= <-]. unfold get_check_rfid_status, checkRFIDStatus, sendCommand.
    cbn [snd]. fields. split; [lia|]. intros k c Hk Hlt.
    rewrite lookup_insert_ne by lia. exists c. tauto.
  - destruct (take_due now (timers st)); [|discriminate]. unfold timer_callback. fields.
    destruct (commandQueue (dispatcher st)); [discriminate|].
    intros [= <-]. fields. split; [lia|]. intros k c Hk _. exists c. tauto.
  - destruct (outstanding st !! i) as [[entry|call]|] eqn:Hi; [| |discriminate].
    + intros [= <-].
      pose proof (write_effect now entry err
                    (set_outstanding (delete i (outstanding st)) st)) as H.
      cbv zeta in H. destruct H as (Hn & _).
      rewrite Hn, write_callback_calls. fields. split; [lia|].
      intros k c Hk _. exists c. split; [exact Hk|]. split; [auto|].
      destruct err; [congruence | contradiction].
    + unfold direct_write_callback. destruct err as [m|].
      * destruct (finish_status_call call None _) as [s|w] eqn:Hf; [|discriminate].
        intros [= <-]. pose proof (finish_status_call_rest _ _ _ _ Hf) as (_ & Hn & _).
        rewrite Hn. fields. split; [lia|]. intros k c Hk _.
        destruct (finish_status_call_calls _ _ _ _ Hf k c Hk) as (c' & H1 & H2 & H3).
        exists c'. split; [exact H1|]. split; [exact H2|].
        intros [= ->]. apply H3. reflexivity.
      * intros [= <-]. fields. split; [lia|]. intros k c Hk _. exists c. tauto.
  - destruct (broadcast data _ _); [|discriminate]. intros [= <-]. fields.
    split; [lia|]. intros k c Hk _. exists c. tauto.
  - destruct (statusCalls st !! call) as [c0|] eqn:Hc0; [|discriminate].
    destruct (call_listening c0); [|discriminate].
    unfold call_listener. rewrite Hc0.
    destruct (finish_status_call call (Some response) _) as [s|w] eqn:Hf; [|discriminate].
    intros [= <-]. pose proof (finish_status_call_rest _ _ _ _ Hf) as (_ & Hn & _).
    rewrite Hn. fields. split; [lia|]. intros k c Hk _.
    destruct (decide (k = call)) as [->|Hne].
    + rewrite Hc0 in Hk. injection Hk as <-.
      destruct (finish_status_call_calls _ _ _ _ Hf call
                  {| call_res := call_res c0; call_listening := false;
                     call_settled := call_settled c0 |}) as (c' & H1 & H2 & H3).
      { fields. apply lookup_insert_eq. }
      exists c'. split; [exact H1|]. split; [exact H2|]. intros _. apply H3. reflexivity.
    + destruct (finish_status_call_calls _ _ _ _ Hf k c) as (c' & H1 & H2 & _).
      { fields. rewrite lookup_insert_ne by congruence. exact Hk. }
      exists c'. split; [exact H1|]. split; [exact H2 | congruence].
  - destruct (sockets st !! ws); [discriminate|]. intros [= <-]. fields.
    split; [lia|]. intros k c Hk _. exists c. tauto.
  - destruct (sockets st !! ws); [|discriminate]. intros [= <-]. fields.
    split; [lia|]. intros k c Hk _. exists c. tauto.
  - intros [= <-]. split; [lia|]. intros k c Hk _. exists c. tauto.
  - intros [= <-]. fields. split; [lia|]. intros k c Hk _. exists c. tauto.
  - intros [= <-]. fields. split; [lia|]. intros k c Hk _. exists c. tauto.
Qed.

Lemma run_keeps_settled (evs : list (Z * Event)) (call : nat) :
  forall st st' c,
    run evs st = Ran st' ->
    statusCalls st !! call = Some c -> (call < nextId st)%nat -> call_settled c = true ->
    exists c', statusCalls st' !! call = Some c' /\ call_settled c' = true.
Proof.
  induction evs as [|[now ev] evs IH]; intros st st' c; cbn [run].
  - intros [= <-] Hc _ Hs. eauto.
  - destruct (step now ev st) as [st1| |] eqn:Hstep; try discriminate.
    intros Hrun Hc Hlt Hs. unfold step in Hstep.
    destruct (clock st <=? now); [|discriminate].
    destruct (handle_calls now ev _ st1 Hstep) as (Hn & Hcalls).
    destruct (Hcalls call c Hc Hlt) as (c1 & Hc1 & Hkeep & _).
    apply (IH st1 st' c1 Hrun Hc1); [fields; lia | auto].
Qed.

(** The callbacks of a settled call send nothing. *)
Lemma settled_call_is_silent (now : Z) (ev : Event) (st st' : Server)
    (call : nat) (c : StatusCall) :
  statusCalls st !! call = Some c -> call_settled c = true ->
  concerns_call call ev st -> handle now ev st = Ran st' ->
  responses st' = responses st.
Proof.
  intros Hc Hs. destruct ev; cbn [concerns_call handle]; try contradiction.
  - intros Hi. rewrite Hi. unfold direct_write_callback, finish_status_call. fields.
    rewrite Hc, Hs. destruct err; intros [= <-]; reflexivity.
  - intros ->. rewrite Hc. destruct (call_listening c); [|discriminate].
    unfold call_listener, finish_status_call. rewrite Hc. fields.
    rewrite lookup_insert_eq. cbn [call_settled]. rewrite Hs.
    intros [= <-]. reflexivity.
Qed.

(** X15. A status request is answered at most once.  Once a line has
    reached the listener of a call, or the write of the call has failed,
    then whatever happens in between, a later callback of that call (a
    line, a failed or a completed write) sends no response. *)
Theorem status_call_answers_once
    (st st1 st2 st3 : Server) (call : nat) (c : StatusCall)
    (now now' : Z) (ev ev' : Event) (evs : list (Z * Event)) :
  statusCalls st !! call = Some c -> (call < nextId st)%nat ->
  settles_call call ev st -> step now ev st = Ran st1 ->
  run evs st1 = Ran st2 ->
  concerns_call call ev' st2 -> step now' ev' st2 = Ran st3 ->
  responses st3 = responses st2.
Proof.
  intros Hc Hlt Hsettles Hstep Hrun Hconcerns Hstep'.
  unfold step in Hstep. destruct (clock st <=? now); [|discriminate].
  destruct (handle_calls now ev _ st1 Hstep) as (Hn & Hcalls).
  destruct (Hcalls call c Hc Hlt) as (c1 & Hc1 & _ & Hs1).
  assert (Hsettled1 : call_settled c1 = true).
  { apply Hs1. destruct ev; try contradiction; exact Hsettles. }
  destruct (run_keeps_settled evs call st1 st2 c1 Hrun Hc1) as (c2 & Hc2 & Hs2);
    [fields; lia | exact Hsettled1 |].
  unfold step in Hstep'. destruct (clock st2 <=? now'); [|discriminate].
  apply (settled_call_is_silent now' ev' (set_clock now' st2) st3 call c2 Hc2 Hs2);
    [|exact Hstep'].
  destruct ev'; try contradiction; exact Hconcerns.
Qed.

Lemma status_call_answers_once_witness :
  exists st1 st2 st3,
    step 6 (WriteCompletes 0 (Some (lit "Port is not open")))
      (get_check_rfid_status 5 9 None initial) = Ran st1
    /\ run [(7, PostSendCommand 1 (Some (lit "A"))); (8, GetCheckRfidStatus 2 None)] st1
       = Ran st2
    /\ step 9 (CallLine 0 (lit "X008B[d001]")) st2 = Ran st3
    /\ responses st3 = responses st2
    /\ responses st2 = [(9%nat, failed_status_response)].
Proof.
  eexists. eexists. eexists.
  split; [vm_compute; reflexivity|].
  split; [vm_compute; reflexivity|].
  split; [vm_compute; reflexivity|].
  split; [|reflexivity].
  eapply (status_call_answers_once
            (get_check_rfid_status 5 9 None initial) _ _ _ 0%nat
            {| call_res := 9; call_listening := true; call_settled := false |}
            6 9 (WriteCompletes 0 (Some (lit "Port is not open")))
            (CallLine 0 (lit "X008B[d001]"))
            [(7, PostSendCommand 1 (Some (lit "A"))); (8, GetCheckRfidStatus 2 None)]);
    [reflexivity | vm_compute; lia | reflexivity | vm_compute; reflexivity
     | vm_compute; reflexivity | reflexivity | vm_compute; reflexivity].
Defined.

(** ** The test client and the server *)

Lemma trimStart_fixed (s : jsstring) :
  trimStart s = s <-> s = [] \/ exists c t, s = c :: t /\ is_white_space c = false.
Proof.
  destruct s as [|c t]; cbn [trimStart].
  - split; [auto | reflexivity].
  - destruct (is_white_space c) eqn:E.
    + split.
      * intros H. exfalso.
        assert (Hlen : (length (trimStart t) <= length t)%nat).
        { clear. induction t as [|x t IH]; cbn [trimStart]; [lia|].
          destruct (is_white_space x); cbn [length]; lia. }
        rewrite H in Hlen. cbn [length] in Hlen. lia.
      * intros [H|(c' & t' & H & Hc)]; [discriminate H|].
        injection H as <- <-. congruence.
    + split; [intros _; right; eauto | reflexivity].
Qed.

Lemma trimStart_idem (s : jsstring) : trimStart (trimStart s) = trimStart s.
Proof.
  induction s as [|c s IH]; cbn [trimStart]; [reflexivity|].
  destruct (is_white_space c) eqn:E; [exact IH|].
  cbn [trimStart]. rewrite E. reflexivity.
Qed.

Lemma trimStart_split (s : jsstring) : exists p, s = p ++ trimStart s.
Proof.
  induction s as [|c s [p IH]]; cbn [trimStart]; [exists []; reflexivity|].
  destruct (is_white_space c).
  - exists (c :: p). cbn [app]. f_equal. exact IH.
  - exists []. reflexivity.
Qed.

Lemma trimStart_head (a b : jsstring) :
  a <> [] -> trimStart (a ++ b) = a ++ b -> trimStart a = a.
Proof.
  intros Ha H. apply trimStart_fixed in H. apply trimStart_fixed.
  destruct a as [|c t]; [congruence|]. right.
  destruct H as [H|(c' & t' & H & Hc)]; [discriminate H|].
  cbn [app] in H. injection H as <- _. eauto.
Qed.

(** The end of a string stays trimmed when its start is trimmed. *)
Lemma trimStart_keeps_end (y : jsstring) :
  trimStart (rev y) = rev y -> trimStart (rev (trimStart y)) = rev (trimStart y).
Proof.
  intros Hy. destruct (trimStart_split y) as [p Hp].
  destruct (trimStart y) as [|c w] eqn:Hw; [reflexivity|].
  rewrite Hp, rev_app_distr in Hy.
  apply (trimStart_head _ (rev p)); [|exact Hy].
  cbn [rev]. intros H. apply app_eq_nil in H as [_ H]. discriminate H.
Qed.

Lemma trim_is_trimmed (s : jsstring) : trimmed (trim s).
Proof.
  unfold trimmed, trim. split; [apply trimStart_idem|].
  apply trimStart_keeps_end. unfold trimEnd. rewrite rev_involutive.
  apply trimStart_idem.
Qed.

Lemma trimmed_trim (s : jsstring) : trimmed s -> trim s = s.
Proof.
  intros [H1 H2]. unfold trim, trimEnd. rewrite H2, rev_involutive. exact H1.
Qed.

Lemma trimmed_no_terminator (s : jsstring) :
  trimmed s -> s <> [] -> endsWith CRLF s = false.
Proof.
  intros [_ H] Hs. unfold endsWith. apply trimStart_fixed in H.
  destruct H as [H|(c & t & H & Hc)].
  - exfalso. apply Hs. rewrite <- (rev_involutive s), H. reflexivity.
  - rewrite H. cbn [rev CRLF app starts_with].
    destruct (N.eqb 10 c) eqn:E; [|reflexivity].
    apply N.eqb_eq in E. subst c. discriminate Hc.
Qed.

(** X16. The test client sends no request for an input that is blank.
    What it does send is never refused with 400: the server appends the
    terminator to it, always, enqueues it, and the command a successful
    response carries is exactly the command the client sent. *)
Theorem client_command_round_trip (value : jsstring) :
  (Client.sendCommand value = None <-> trim value = [])
  /\ forall cmd,
      Client.sendCommand value = Some cmd ->
      cmd = trim value
      /\ formatted cmd = cmd ++ CRLF
      /\ trim (formatted cmd) = cmd
      /\ forall now res st,
          commandQueue (dispatcher (post_send_command now res (Some cmd) st))
          = commandQueue (dispatcher st)
            ++ [{| command := cmd ++ CRLF; promise := nextId st |}].
Proof.
  unfold Client.sendCommand. split.
  - destruct (trim value); cbn; split; congruence.
  - intros cmd Hsend.
    assert (Hcmd : cmd = trim value /\ cmd <> []).
    { destruct (trim value) as [|c t]; cbn in Hsend; [discriminate|].
      injection Hsend as <-. split; [reflexivity | discriminate]. }
    destruct Hcmd as [Hcmd Hne].
    assert (Htr : trimmed cmd) by (rewrite Hcmd; apply trim_is_trimmed).
    assert (Hfmt : formatted cmd = cmd ++ CRLF).
    { unfold formatted. rewrite (trimmed_no_terminator cmd Htr Hne). reflexivity. }
    split; [exact Hcmd|]. split; [exact Hfmt|].
    split; [rewrite trim_formatted; apply trimmed_trim, Htr|].
    intros now res st.
    pose proof (post_send_command_enqueues now res cmd st Hne) as H. cbv zeta in H.
    destruct H as (H & _). rewrite H, Hfmt. reflexivity.
Qed.

Lemma client_command_round_trip_witness :
  Client.sendCommand (lit "  X001B[2] ") = Some (lit "X001B[2]")
  /\ formatted (lit "X001B[2]") = lit "X001B[2]" ++ CRLF
  /\ trim (formatted (lit "X001B[2]")) = lit "X001B[2]".
Proof.
  split; [reflexivity|].
  destruct (client_command_round_trip (lit "  X001B[2] ")) as (_ & H).
  destruct (H (lit "X001B[2]") eq_refl) as (_ & H2 & H3 & _).
  split; [exact H2 | exact H3].
Defined.
